(** * Transforms for dot-product scoring of bipartite pairs

    A shallow embedding of [python-scoring/transforms_for_dot_prods.py]:
    each transform rewrites an item x affiliation adjacency matrix so that
    the inner product of two transformed rows is a similarity score.

    Numbers.  NumPy computes in IEEE-754 doubles.  The embedding keeps the
    special values of that arithmetic ([PInf], [NInf], [NaN]) and the rules
    that create and propagate them (x/0, 0/0, 0*inf, inf-inf, sqrt and log
    out of their domain); on finite values the arithmetic is the exact one
    of the real numbers.  Rounding, overflow, underflow and the sign of
    zero are not modelled: a division by zero behaves as a division by +0,
    which is the only zero the divisors of this file can take (they are
    square roots, or popularities, which are not negative).  Where a
    property is about the digits that the code returns, [cosine_transform]
    is evaluated a second time in binary64 itself (last section of the
    definitions).

    Matrices.  A dense matrix is a list of rows with its number of
    columns; a SciPy sparse matrix is, row by row, the list of its stored
    entries (column index, value), with its storage format and number of
    columns.  Broadcasting is modelled for the shapes the transforms are
    written for: a vector of one value per column. *)

From Stdlib Require Import Reals Lra Lia List ZArith Bool Arith SpecFloat.
Import ListNotations.
Open Scope R_scope.

(** ** IEEE special values over exact reals *)

Inductive float : Type :=
| Fin (r : R)
| PInf
| NInf
| NaN.

Definition fadd (a b : float) : float :=
  match a, b with
  | NaN, _ | _, NaN => NaN
  | Fin x, Fin y => Fin (x + y)
  | PInf, NInf | NInf, PInf => NaN
  | PInf, _ | _, PInf => PInf
  | NInf, _ | _, NInf => NInf
  end.

Definition fsub (a b : float) : float :=
  match a, b with
  | NaN, _ | _, NaN => NaN
  | Fin x, Fin y => Fin (x - y)
  | PInf, PInf | NInf, NInf => NaN
  | PInf, _ | _, NInf => PInf
  | NInf, _ | _, PInf => NInf
  end.

(** inf * y for a finite y: the sign follows y, and inf * 0 is NaN. *)
Definition inf_times (positive : bool) (y : R) : float :=
  if Req_dec_T y 0 then NaN
  else if Rlt_dec y 0 then (if positive then NInf else PInf)
       else (if positive then PInf else NInf).

Definition fmul (a b : float) : float :=
  match a, b with
  | NaN, _ | _, NaN => NaN
  | Fin x, Fin y => Fin (x * y)
  | PInf, Fin y | Fin y, PInf => inf_times true y
  | NInf, Fin y | Fin y, NInf => inf_times false y
  | PInf, PInf | NInf, NInf => PInf
  | PInf, NInf | NInf, PInf => NInf
  end.

Definition fdiv (a b : float) : float :=
  match a, b with
  | NaN, _ | _, NaN => NaN
  | Fin x, Fin y =>
      if Req_dec_T y 0
      then (if Req_dec_T x 0 then NaN
            else if Rlt_dec x 0 then NInf else PInf)
      else Fin (x / y)
  | Fin _, PInf | Fin _, NInf => Fin 0
  | PInf, Fin y => if Rlt_dec y 0 then NInf else PInf
  | NInf, Fin y => if Rlt_dec y 0 then PInf else NInf
  | PInf, PInf | PInf, NInf | NInf, PInf | NInf, NInf => NaN
  end.

(** [np.sqrt] *)
Definition fsqrt (a : float) : float :=
  match a with
  | Fin x => if Rlt_dec x 0 then NaN else Fin (sqrt x)
  | PInf => PInf
  | NInf | NaN => NaN
  end.

(** [np.log] *)
Definition flog (a : float) : float :=
  match a with
  | Fin x => if Rlt_dec x 0 then NaN
             else if Req_dec_T x 0 then NInf else Fin (ln x)
  | PInf => PInf
  | NInf | NaN => NaN
  end.

(** [np.maximum]: the larger value; a NaN operand gives NaN. *)
Definition fmaximum (a b : float) : float :=
  match a, b with
  | NaN, _ | _, NaN => NaN
  | PInf, _ | _, PInf => PInf
  | NInf, c | c, NInf => c
  | Fin x, Fin y => Fin (Rmax x y)
  end.

(** [np.isinf] *)
Definition isinf (a : float) : bool :=
  match a with
  | PInf | NInf => true
  | _ => false
  end.

(** [np.isfinite] *)
Definition isfinite (a : float) : bool :=
  match a with
  | Fin _ => true
  | _ => false
  end.

(** [==] on floats: NaN equals nothing. *)
Definition feqb (a b : float) : bool :=
  match a, b with
  | Fin x, Fin y => if Req_dec_T x y then true else false
  | PInf, PInf | NInf, NInf => true
  | _, _ => false
  end.

(** ** Vectors, dense and sparse matrices *)

Abbreviation vector := (list float).

(** The stored entries of one row of a sparse matrix. *)
Abbreviation sprow := (list (nat * float)).

Inductive spformat : Type := CSR | COO.

Inductive matrix : Type :=
| Dense (m : nat) (rows : list vector)
| Sparse (fmt : spformat) (m : nat) (rows : list sprow).

Fixpoint map2 {A B C : Type} (f : A -> B -> C) (l : list A) (l' : list B)
  : list C :=
  match l, l' with
  | a :: t, b :: t' => f a b :: map2 f t t'
  | _, _ => []
  end.

(** [np.sum]; the order of the additions is immaterial in exact
    arithmetic. *)
Definition fsum (l : vector) : float := fold_right fadd (Fin 0) l.

(** [sparse.isspmatrix] *)
Definition isspmatrix (adj : matrix) : bool :=
  match adj with
  | Dense _ _ => false
  | Sparse _ _ _ => true
  end.

(** [adj_matrix.shape[1]] *)
Definition shape1 (adj : matrix) : nat :=
  match adj with
  | Dense m _ => m
  | Sparse _ m _ => m
  end.

(** Entry of column [j] in a sparse row: the stored values at [j] added
    up, 0 when nothing is stored there. *)
Definition entry_at (j : nat) (r : sprow) : float :=
  fsum (map snd (filter (fun e => Nat.eqb (fst e) j) r)).

Definition toarray_row (m : nat) (r : sprow) : vector :=
  map (fun j => entry_at j r) (seq 0 m).

(** [adj_matrix.toarray()]; a dense matrix is its own array. *)
Definition toarray (adj : matrix) : list vector :=
  match adj with
  | Dense _ rows => rows
  | Sparse _ m rows => map (toarray_row m) rows
  end.

(** [.tocsr()] *)
Definition tocsr (adj : matrix) : matrix :=
  match adj with
  | Sparse _ m rows => Sparse CSR m rows
  | Dense m rows => Dense m rows
  end.

(** Scaling of the stored entries of a sparse row by one factor. *)
Definition sprow_scale (s : float) (r : sprow) : sprow :=
  map (fun e => (fst e, fmul (snd e) s)) r.

(** The elementwise product with a vector [v] of one factor per column:
    [adj_matrix.multiply(v)] on a sparse matrix, where SciPy multiplies
    the stored entries only and returns COO storage, and [adj_matrix * v]
    on an array. *)
Definition multiply (adj : matrix) (v : vector) : matrix :=
  match adj with
  | Sparse _ m rows =>
      Sparse COO m
        (map (map (fun e => (fst e, fmul (snd e) (nth (fst e) v NaN)))) rows)
  | Dense m rows => Dense m (map (fun r => map2 fmul r v) rows)
  end.

(** [adj_matrix.multiply(s)] for a scalar [s]: the storage format is
    kept. *)
Definition multiply_scalar (adj : matrix) (s : float) : matrix :=
  match adj with
  | Sparse f m rows => Sparse f m (map (sprow_scale s) rows)
  | Dense m rows => Dense m (map (map (fun x => fmul x s)) rows)
  end.

(** [adj_matrix / v] for a vector [v] of one divisor per column.  On a
    sparse matrix SciPy computes [adj_matrix.todense() / v]; the entries
    are those of the array, which is what the model keeps (the container
    SciPy wraps them in has changed between its versions). *)
Definition divide (adj : matrix) (v : vector) : matrix :=
  Dense (shape1 adj) (map (fun r => map2 fdiv r v) (toarray adj)).

(** [adj_matrix / s] for a scalar [s].  On a sparse matrix SciPy scales
    the stored entries by [1 / s] and the result stays sparse. *)
Definition divide_scalar (adj : matrix) (s : float) : matrix :=
  match adj with
  | Dense m rows => Dense m (map (map (fun x => fdiv x s)) rows)
  | Sparse f m rows => Sparse f m (map (sprow_scale (fdiv (Fin 1) s)) rows)
  end.

(** ** The transforms *)

(** [pi_for_denom[pi_for_denom == 0] = .5] followed by
    [pi_for_denom[pi_for_denom == 1] = .5], on one entry. *)
Definition handle_01 (p : float) : float :=
  let p0 := if feqb p (Fin 0) then Fin (1 / 2) else p in
  if feqb p0 (Fin 1) then Fin (1 / 2) else p0.

Definition wc_denominator (m : nat) (pi_vector : vector) : vector :=
  let pi_for_denom := map handle_01 pi_vector in
  map (fun p => fsqrt (fmul (fmul p (fsub (Fin 1) p)) (Fin (INR m))))
      pi_for_denom.

(** On a sparse matrix [adj_matrix - pi_vector] is SciPy's
    [adj_matrix.todense() - pi_vector]: the result is an array either
    way. *)
Definition wc_transform (adj_matrix : matrix) (pi_vector : vector) : matrix :=
  let m := shape1 adj_matrix in
  Dense m
    (map (fun r => map2 fdiv (map2 fsub r pi_vector)
                     (wc_denominator m pi_vector))
         (toarray adj_matrix)).

(** [np.maximum(num_docs * pi_vector, 2)] *)
Definition affil_counts (num_docs : Z) (pi_vector : vector) : vector :=
  map (fun p => fmaximum (fmul (Fin (IZR num_docs)) p) (Fin 2)) pi_vector.

(** [np.sqrt(affil_counts.astype(float) - 1)] *)
Definition newman_divisor (num_docs : Z) (pi_vector : vector) : vector :=
  map (fun c => fsqrt (fsub c (Fin 1))) (affil_counts num_docs pi_vector).

(** [np.sqrt(np.log(affil_counts))] *)
Definition adamic_adar_divisor (num_docs : Z) (pi_vector : vector) : vector :=
  map (fun c => fsqrt (flog c)) (affil_counts num_docs pi_vector).

Definition newman_transform (adj_matrix : matrix) (pi_vector : vector)
    (num_docs : Z) (make_dense : bool) : matrix :=
  let d := newman_divisor num_docs pi_vector in
  if isspmatrix adj_matrix && negb make_dense
  then tocsr (multiply adj_matrix (map (fdiv (Fin 1)) d))
  else divide adj_matrix d.

Definition shared_size_transform (adj_matrix : matrix)
    (back_compat make_dense : bool) : matrix :=
  if back_compat then adj_matrix
  else
    let s := fsqrt (Fin (INR (shape1 adj_matrix))) in
    if isspmatrix adj_matrix && negb make_dense
    then multiply_scalar adj_matrix (fdiv (Fin 1) s)
    else divide_scalar adj_matrix s.

(** [np.sqrt(np.log(1 / pi_vector))] *)
Definition weight11 (pi_vector : vector) : vector :=
  map (fun p => fsqrt (flog (fdiv (Fin 1) p))) pi_vector.

Definition shared_weight11_transform (adj_matrix : matrix)
    (pi_vector : vector) : matrix :=
  if isspmatrix adj_matrix
  then tocsr (multiply adj_matrix (weight11 pi_vector))
  else multiply adj_matrix (weight11 pi_vector).

Definition adamic_adar_transform (adj_matrix : matrix) (pi_vector : vector)
    (num_docs : Z) (make_dense : bool) : matrix :=
  let d := adamic_adar_divisor num_docs pi_vector in
  if isspmatrix adj_matrix && negb make_dense
  then tocsr (multiply adj_matrix (map (fdiv (Fin 1)) d))
  else divide adj_matrix d.

(** [row_norms[np.isinf(row_norms)] = 0], on one entry. *)
Definition zero_if_inf (d : float) : float :=
  if isinf d then Fin 0 else d.

Definition cosine_transform (adj_matrix : matrix) (make_dense : bool)
  : matrix :=
  let adj_matrix :=
    if isspmatrix adj_matrix && make_dense
    then Dense (shape1 adj_matrix) (toarray adj_matrix)
    else adj_matrix in
  match adj_matrix with
  | Sparse _ m rows =>
      let row_norms :=
        map (fun r =>
               fdiv (Fin 1)
                    (fsqrt (fsum (map (fun e => fmul (snd e) (snd e)) r))))
            rows in
      let row_norms := map zero_if_inf row_norms in
      (* spdiags(row_norms, 0, n, n) * adj_matrix: row i scaled by
         row_norms[i].  The stored entries of a row have distinct
         columns (SciPy adds duplicates up before it squares). *)
      Sparse CSR m
        (map2 (fun d r => map (fun e => (fst e, fmul d (snd e))) r)
              row_norms rows)
  | Dense m rows =>
      let row_norms := map (fun r => fsqrt (fsum (map2 fmul r r))) rows in
      let row_norms := map zero_if_inf row_norms in
      Dense m (map2 (fun r d => map (fun x => fdiv x d) r) rows row_norms)
  end.

Definition cosine_weights_transform (adj_matrix : matrix) (weights : vector)
    (make_dense : bool) : matrix :=
  let transformed_mat :=
    if isspmatrix adj_matrix
    then tocsr (multiply adj_matrix weights)
    else multiply adj_matrix weights in
  cosine_transform transformed_mat make_dense.






(** ** Scores *)

Definition dot (u v : vector) : float := fsum (map2 fmul u v).

(** Modelled from the spec: the dot-product scorer lives in
    [scoring_methods], which is not among the sources.  The spec gives it
    as the Gram matrix [M . M^T]: entry (i, j) is the inner product of
    rows i and j of the transformed matrix. *)
Definition dot_product_scorer (M : matrix) (i j : nat) : float :=
  dot (nth i (toarray M) []) (nth j (toarray M) []).

(** ** Reading matrices *)

(** Entry (i, j) of the logical matrix, [None] out of range. *)
Definition entry (adj : matrix) (i j : nat) : option float :=
  match nth_error (toarray adj) i with
  | Some r => nth_error r j
  | None => None
  end.

(** The term that column [k] adds to the score of the pair (i, j). *)
Definition contribution (M : matrix) (k i j : nat) : option float :=
  match entry M i k, entry M j k with
  | Some a, Some b => Some (fmul a b)
  | _, _ => None
  end.

Definition finite (a : float) : Prop := isfinite a = true.

(** Every entry (stored entry, for a sparse matrix) is a finite number. *)
Definition finite_matrix (adj : matrix) : Prop :=
  match adj with
  | Dense _ rows => Forall (Forall finite) rows
  | Sparse _ _ rows => Forall (Forall (fun e => finite (snd e))) rows
  end.

(** A row of finite numbers. *)
Definition Fins (xs : list R) : vector := map Fin xs.

(** ** Mathematical counterparts, on real numbers *)

Definition Rsum (xs : list R) : R := fold_right Rplus 0 xs.

Definition Rmean (xs : list R) : R := Rsum xs / INR (length xs).


(** ** Example data *)

Definition f0 : float := Fin 0.
Definition f1 : float := Fin 1.

(** The 3-item x 4-affiliation matrix of the end-to-end scenarios. *)
Definition example_rows : list vector :=
  [ [f1; f1; f0; f0]; [f1; f0; f1; f0]; [f0; f0; f0; f1] ].

Definition example_dense : matrix := Dense 4 example_rows.

Definition example_sparse : matrix :=
  Sparse CSR 4 [ [(0%nat, f1); (1%nat, f1)];
                 [(0%nat, f1); (2%nat, f1)];
                 [(3%nat, f1)] ].

(** A 0/1 row, and the number of affiliations two 0/1 rows share. *)
Definition binary_row (bs : list bool) : vector :=
  map (fun b : bool => if b then f1 else f0) bs.

Fixpoint shared_count (u v : list bool) : nat :=
  match u, v with
  | a :: u', b :: v' => ((if a && b then 1 else 0) + shared_count u' v')%nat
  | _, _ => 0%nat
  end.


(** ** Model-based weighted correlation *)

(** [exp_model.edge_prob_matrix()] belongs to a model object that is not
    among the sources; its result, an array with one probability per entry
    of the adjacency matrix, is the argument [edge_probs]. *)
Definition wc_exp_transform (adj_matrix : matrix) (edge_probs : list vector)
  : matrix :=
  let m := shape1 adj_matrix in
  let edge_probs_for_denom := map (map handle_01) edge_probs in
  let denom :=
    map (map (fun p => fsqrt (fmul (fmul p (fsub (Fin 1) p)) (Fin (INR m)))))
        edge_probs_for_denom in
  Dense m
    (map2 (map2 fdiv) (map2 (map2 fsub) (toarray adj_matrix) edge_probs)
          denom).

(** ** Sums over rows of real numbers *)

(** Inner product. *)
Definition Rdot (xs ys : list R) : R := Rsum (map2 Rmult xs ys).

(** The sum, column by column, of a term in two entries and the parameter
    of the column. *)
Fixpoint Rsum3 (f : R -> R -> R -> R) (xs ys ps : list R) : R :=
  match xs, ys, ps with
  | x :: xs', y :: ys', p :: ps' => f x y p + Rsum3 f xs' ys' ps'
  | _, _, _ => 0
  end.

(** The popularity that [wc_transform] uses in its denominator. *)
Definition Rhandle_01 (p : R) : R :=
  if Req_dec_T p 0 then 1 / 2 else if Req_dec_T p 1 then 1 / 2 else p.


(** Column [j] of the logical matrix, row by row ([None] where a row has
    no entry [j]). *)
Definition column (M : matrix) (j : nat) : list (option float) :=
  map (fun r => nth_error r j) (toarray M).


(** The number that a finite value stands for (0 for the others). *)
Definition real_of (a : float) : R :=
  match a with
  | Fin v => v
  | _ => 0
  end.

(** ** The cosine transform in binary64 *)

(** NumPy's float64 is IEEE-754 binary64: 53 bits of precision, exponents
    up to 1024, every operation rounded to nearest, ties to even.
    [spec_float] is that arithmetic, computed on the significand and the
    exponent: [S754_finite s m e] is the number (-1)^s * m * 2^e. *)
Abbreviation b64 := spec_float.

Definition b64_add : b64 -> b64 -> b64 := SFadd 53 1024.
Definition b64_mul : b64 -> b64 -> b64 := SFmul 53 1024.
Definition b64_div : b64 -> b64 -> b64 := SFdiv 53 1024.
Definition b64_sqrt : b64 -> b64 := SFsqrt 53 1024.

(** [==] on two doubles. *)
Definition b64_eqb : b64 -> b64 -> bool := SFeqb.

(** The double of an integer. *)
Definition b64_of_Z (n : Z) : b64 := binary_normalize 53 1024 n 0 false.

(** [np.isinf] *)
Definition b64_isinf (x : b64) : bool :=
  match x with
  | S754_infinity _ => true
  | _ => false
  end.

(** The value of a double, in the numbers of the first section. *)
Definition float_of_b64 (x : b64) : float :=
  match x with
  | S754_zero _ => Fin 0
  | S754_infinity false => PInf
  | S754_infinity true => NInf
  | S754_nan => NaN
  | S754_finite s m e =>
      Fin (IZR (if s then Z.neg m else Z.pos m) * powerRZ 2 e)
  end.

(** A sum adds from left to right, as NumPy does on a row of fewer than
    eight entries. *)
Definition b64_sum (xs : list b64) : b64 := fold_left b64_add xs (b64_of_Z 0).

Inductive matrix_b64 : Type :=
| Dense_b64 (m : nat) (rows : list (list b64))
| Sparse_b64 (m : nat) (rows : list (list (nat * b64))).

Definition isspmatrix_b64 (adj : matrix_b64) : bool :=
  match adj with
  | Sparse_b64 _ _ => true
  | Dense_b64 _ _ => false
  end.

Definition shape1_b64 (adj : matrix_b64) : nat :=
  match adj with
  | Dense_b64 m _ | Sparse_b64 m _ => m
  end.

(** [adj_matrix.toarray()] *)
Definition toarray_b64 (adj : matrix_b64) : list (list b64) :=
  match adj with
  | Dense_b64 _ rows => rows
  | Sparse_b64 m rows =>
      map (fun r =>
             map (fun j =>
                    b64_sum (map snd (filter (fun e => Nat.eqb (fst e) j) r)))
                 (seq 0 m))
          rows
  end.

(** [row_norms[np.isinf(row_norms)] = 0], entry by entry. *)
Definition zero_if_inf_b64 (x : b64) : b64 :=
  if b64_isinf x then b64_of_Z 0 else x.

(** [cosine_transform], operation by operation as in the source, on
    doubles.  Sparse branch: [1 / np.sqrt(adj_matrix.power(2).sum(axis=1))],
    the reset of the infinite entries, and the product with the diagonal
    matrix, which multiplies each stored entry of row i by [row_norms[i]].
    Dense branch: [np.sqrt((adj_matrix * adj_matrix).sum(axis=1))], the
    reset of the infinite entries, and the division of each row by its
    norm. *)
Definition cosine_transform_b64 (adj_matrix : matrix_b64) (make_dense : bool)
  : matrix_b64 :=
  let adj_matrix :=
    if isspmatrix_b64 adj_matrix && make_dense
    then Dense_b64 (shape1_b64 adj_matrix) (toarray_b64 adj_matrix)
    else adj_matrix in
  match adj_matrix with
  | Sparse_b64 m rows =>
      let row_norms :=
        map (fun r =>
               b64_div (b64_of_Z 1)
                 (b64_sqrt
                    (b64_sum (map (fun e => b64_mul (snd e) (snd e)) r))))
            rows in
      let row_norms := map zero_if_inf_b64 row_norms in
      Sparse_b64 m
        (map2 (fun d r => map (fun e => (fst e, b64_mul d (snd e))) r)
              row_norms rows)
  | Dense_b64 m rows =>
      let row_norms :=
        map (fun r => b64_sqrt (b64_sum (map2 b64_mul r r))) rows in
      let row_norms := map zero_if_inf_b64 row_norms in
      Dense_b64 m
        (map2 (fun r d => map (fun x => b64_div x d) r) rows row_norms)
  end.

(** Modelled from the spec: entry (i, j) of the Gram matrix [M . M^T], on
    doubles. *)
Definition dot_product_scorer_b64 (M : matrix_b64) (i j : nat) : b64 :=
  b64_sum (map2 b64_mul (nth i (toarray_b64 M) []) (nth j (toarray_b64 M) [])).

(** The example matrix, as doubles. *)
Definition example_dense_b64 : matrix_b64 :=
  Dense_b64 4
    (map (map b64_of_Z) [ [1; 1; 0; 0]; [1; 0; 1; 0]; [0; 0; 0; 1] ]%Z).

Definition example_sparse_b64 : matrix_b64 :=
  Sparse_b64 4 [ [(0%nat, b64_of_Z 1); (1%nat, b64_of_Z 1)];
                 [(0%nat, b64_of_Z 1); (2%nat, b64_of_Z 1)];
                 [(3%nat, b64_of_Z 1)] ].

(** * Properties *)

(** ** Arithmetic on finite values *)

Ltac case_dec :=
  repeat match goal with
  | |- context [Req_dec_T ?a ?b] => destruct (Req_dec_T a b); try lra
  | |- context [Rlt_dec ?a ?b] => destruct (Rlt_dec a b); try lra
  end.

Lemma fdiv_Fin (x y : R) : y <> 0 -> fdiv (Fin x) (Fin y) = Fin (x / y).
Proof.
  intros Hy. unfold fdiv.
  destruct (Req_dec_T y 0); [contradiction | reflexivity].
Qed.

Lemma fdiv_0_0 : fdiv (Fin 0) (Fin 0) = NaN.
Proof. unfold fdiv. case_dec; try reflexivity. Qed.

Lemma fsqrt_Fin (x : R) : 0 <= x -> fsqrt (Fin x) = Fin (sqrt x).
Proof.
  intros Hx. unfold fsqrt. destruct (Rlt_dec x 0); [lra | reflexivity].
Qed.

Lemma flog_Fin (x : R) : 0 < x -> flog (Fin x) = Fin (ln x).
Proof. intros Hx. unfold flog. case_dec; try reflexivity. Qed.

Lemma feqb_Fin_refl (x : R) : feqb (Fin x) (Fin x) = true.
Proof. unfold feqb. case_dec; try reflexivity. Qed.

Lemma feqb_Fin_neq (x y : R) : x <> y -> feqb (Fin x) (Fin y) = false.
Proof.
  intros H. unfold feqb. destruct (Req_dec_T x y); [contradiction | reflexivity].
Qed.

Lemma fmul_comm (a b : float) : fmul a b = fmul b a.
Proof.
  destruct a, b; simpl; try reflexivity. f_equal. apply Rmult_comm.
Qed.

Lemma finite_Fin (a : float) : finite a <-> exists x, a = Fin x.
Proof.
  unfold finite. split.
  - destruct a; simpl; intros H; try discriminate. now exists r.
  - intros [x ->]. reflexivity.
Qed.

Lemma sqrt_INR_pos (m : nat) : (0 < m)%nat -> 0 < sqrt (INR m).
Proof. intros H. apply sqrt_lt_R0, lt_0_INR, H. Qed.

Lemma fsqrt_INR (m : nat) : fsqrt (Fin (INR m)) = Fin (sqrt (INR m)).
Proof. apply fsqrt_Fin, pos_INR. Qed.

Lemma sqrt2_neq_0 : sqrt 2 <> 0.
Proof. pose proof (sqrt_lt_R0 2). lra. Qed.

Lemma sqrt2_sqr : sqrt 2 * sqrt 2 = 2.
Proof. apply sqrt_sqrt. lra. Qed.

(** ** Lists and matrices *)

Lemma nth_error_map2 {A B C : Type} (f : A -> B -> C) (l : list A)
    (l' : list B) (k : nat) :
  nth_error (map2 f l l') k =
  match nth_error l k, nth_error l' k with
  | Some a, Some b => Some (f a b)
  | _, _ => None
  end.
Proof.
  revert l' k. induction l as [|a t IH]; intros [|b t'] [|k]; simpl;
    try reflexivity.
  - now destruct (nth_error t k).
  - apply IH.
Qed.

Lemma nth_error_toarray_row (m : nat) (r : sprow) (j : nat) :
  nth_error (toarray_row m r) j =
  if (j <? m)%nat then Some (entry_at j r) else None.
Proof.
  unfold toarray_row. rewrite nth_error_map, nth_error_seq.
  now destruct (j <? m)%nat.
Qed.

Lemma entry_Dense (m : nat) (rows : list vector) (i j : nat) :
  entry (Dense m rows) i j =
  match nth_error rows i with Some r => nth_error r j | None => None end.
Proof. reflexivity. Qed.

Lemma entry_Sparse (f : spformat) (m : nat) (rows : list sprow) (i j : nat) :
  entry (Sparse f m rows) i j =
  match nth_error rows i with
  | Some r => if (j <? m)%nat then Some (entry_at j r) else None
  | None => None
  end.
Proof.
  unfold entry. simpl. rewrite nth_error_map.
  destruct (nth_error rows i); simpl; [apply nth_error_toarray_row | reflexivity].
Qed.

(** The entry of a column after each stored entry was multiplied by the
    factor of its column. *)
Lemma entry_at_scaled (w : nat -> float) (j : nat) (c : R) (r : sprow) :
  w j = Fin c ->
  Forall (fun e => finite (snd e)) r ->
  exists a, entry_at j r = Fin a /\
    entry_at j (map (fun e => (fst e, fmul (snd e) (w (fst e)))) r)
    = Fin (a * c).
Proof.
  intros Hw. unfold entry_at. induction 1 as [|[k x] t Hx _ IH]; simpl.
  - exists 0. split; [reflexivity | f_equal; lra].
  - destruct IH as [a [Ha Ha']].
    destruct (Nat.eqb_spec k j) as [->|Hk]; simpl.
    + apply finite_Fin in Hx. destruct Hx as [y Hy]. simpl in Hy. subst x.
      rewrite Ha, Ha', Hw. simpl. exists (y + a). split; [reflexivity|].
      f_equal. lra.
    + now exists a.
Qed.

(** ** The 3 x 4 example under the cosine transform *)

Ltac eval_lists :=
  cbn [isspmatrix shape1 andb negb map map2 fsum fold_right fmul fadd fsub
       toarray toarray_row entry_at filter seq fst snd Nat.eqb nth dot
       isinf zero_if_inf tocsr multiply].

Lemma cosine_example_dense_rows :
  cosine_transform example_dense false =
  Dense 4 [ [Fin (1 / sqrt 2); Fin (1 / sqrt 2); Fin (0 / sqrt 2); Fin (0 / sqrt 2)];
            [Fin (1 / sqrt 2); Fin (0 / sqrt 2); Fin (1 / sqrt 2); Fin (0 / sqrt 2)];
            [Fin (0 / 1); Fin (0 / 1); Fin (0 / 1); Fin (1 / 1)] ].
Proof.
  unfold cosine_transform, example_dense, example_rows, f0, f1. eval_lists.
  replace (1 * 1 + (1 * 1 + (0 * 0 + (0 * 0 + 0)))) with 2 by lra.
  replace (1 * 1 + (0 * 0 + (1 * 1 + (0 * 0 + 0)))) with 2 by lra.
  replace (0 * 0 + (0 * 0 + (0 * 0 + (1 * 1 + 0)))) with 1 by lra.
  rewrite (fsqrt_Fin 2), (fsqrt_Fin 1), sqrt_1 by lra. eval_lists.
  rewrite !fdiv_Fin by (try apply sqrt2_neq_0; lra).
  reflexivity.
Qed.

Lemma cosine_example_sparse_rows :
  cosine_transform example_sparse false =
  Sparse CSR 4 [ [(0%nat, Fin (1 / sqrt 2 * 1)); (1%nat, Fin (1 / sqrt 2 * 1))];
                 [(0%nat, Fin (1 / sqrt 2 * 1)); (2%nat, Fin (1 / sqrt 2 * 1))];
                 [(3%nat, Fin (1 / 1 * 1))] ].
Proof.
  unfold cosine_transform, example_sparse, f0, f1. eval_lists.
  replace (1 * 1 + (1 * 1 + 0)) with 2 by lra.
  replace (1 * 1 + 0) with 1 by lra.
  rewrite (fsqrt_Fin 2), (fsqrt_Fin 1), sqrt_1 by lra.
  rewrite !fdiv_Fin by (try apply sqrt2_neq_0; lra).
  reflexivity.
Qed.

Lemma toarray_example_sparse : toarray example_sparse = example_rows.
Proof.
  unfold example_sparse, example_rows, f0, f1. eval_lists.
  repeat (f_equal; try lra).
Qed.

Lemma half_from_sqrt2 (a : R) :
  a = 1 / sqrt 2 * (1 / sqrt 2) -> a = 1 / 2.
Proof.
  intros ->. pose proof sqrt2_neq_0. pose proof sqrt2_sqr.
  unfold Rdiv. rewrite !Rmult_1_l, <- Rinv_mult, sqrt2_sqr. reflexivity.
Qed.

(** In exact arithmetic the dot product of the cosine-transformed rows of
    the 3 x 4 example matrix is 1/2 for items 0 and 1 and 0 for items 0
    and 2, whether the matrix is dense, sparse, or sparse and made
    dense. *)
Lemma cosine_example_scores_exact :
  dot_product_scorer (cosine_transform example_dense false) 0 1 = Fin (1 / 2)
  /\ dot_product_scorer (cosine_transform example_dense false) 0 2 = Fin 0
  /\ dot_product_scorer (cosine_transform example_sparse false) 0 1 = Fin (1 / 2)
  /\ dot_product_scorer (cosine_transform example_sparse false) 0 2 = Fin 0
  /\ dot_product_scorer (cosine_transform example_sparse true) 0 1 = Fin (1 / 2)
  /\ dot_product_scorer (cosine_transform example_sparse true) 0 2 = Fin 0.
Proof.
  assert (Hd : cosine_transform example_sparse true
               = cosine_transform example_dense false).
  { unfold cosine_transform at 1. 
    change (isspmatrix example_sparse && true) with true. cbv iota.
    rewrite toarray_example_sparse. reflexivity. }
  rewrite Hd, cosine_example_dense_rows, cosine_example_sparse_rows.
  unfold dot_product_scorer. eval_lists.
  pose proof sqrt2_neq_0.
  repeat split; f_equal; try (apply half_from_sqrt2; field; assumption);
    try (field; assumption).
Qed.

(** ** The example in binary64 *)

(** The doubles of the example stand for the numbers of the example. *)
Lemma example_b64_values :
  map (map float_of_b64) (toarray_b64 example_dense_b64) = example_rows
  /\ map (map float_of_b64) (toarray_b64 example_sparse_b64) = example_rows.
Proof.
  assert (H1 : float_of_b64 (b64_of_Z 1) = f1).
  { vm_compute b64_of_Z. cbn [float_of_b64]. unfold f1. f_equal.
    change (powerRZ 2 (-52)) with (/ 2 ^ 52). simpl pow. lra. }
  assert (H0 : float_of_b64 (b64_of_Z 0) = f0) by reflexivity.
  assert (Hs : toarray_b64 example_sparse_b64 = toarray_b64 example_dense_b64)
    by (vm_compute; reflexivity).
  rewrite Hs. split;
    cbn [toarray_b64 example_dense_b64 map]; rewrite H1, H0; reflexivity.
Qed.

(** The double 1/2 is the number 1/2, and the double that is two steps
    below it is the number 1/2 - 2^-53. *)
Lemma b64_half_values :
  float_of_b64 (b64_div (b64_of_Z 1) (b64_of_Z 2)) = Fin (1 / 2)
  /\ float_of_b64 (S754_finite false 9007199254740990 (-54))
     = Fin (1 / 2 - (1 / 2) ^ 53).
Proof.
  split.
  - vm_compute b64_div. cbn [float_of_b64]. f_equal.
    change (powerRZ 2 (-53)) with (/ 2 ^ 53). simpl pow. lra.
  - cbn [float_of_b64]. f_equal.
    change (powerRZ 2 (-54)) with (/ 2 ^ 54). simpl pow. lra.
Qed.

(** In binary64 the score of items 0 and 1 of the example is not the
    double 1/2: the comparison [score == 0.5] is false for the dense form,
    the sparse form, and the sparse form made dense. *)
Lemma cosine_example_score_not_half :
  float_of_b64 (b64_div (b64_of_Z 1) (b64_of_Z 2)) = Fin (1 / 2)
  /\ b64_eqb
       (dot_product_scorer_b64
          (cosine_transform_b64 example_dense_b64 false) 0 1)
       (b64_div (b64_of_Z 1) (b64_of_Z 2)) = false
  /\ b64_eqb
       (dot_product_scorer_b64
          (cosine_transform_b64 example_sparse_b64 false) 0 1)
       (b64_div (b64_of_Z 1) (b64_of_Z 2)) = false
  /\ b64_eqb
       (dot_product_scorer_b64
          (cosine_transform_b64 example_sparse_b64 true) 0 1)
       (b64_div (b64_of_Z 1) (b64_of_Z 2)) = false.
Proof.
  split; [apply b64_half_values|].
  repeat split; vm_compute; reflexivity.
Qed.

(** C9.  On the 3 x 4 example matrix, in binary64, the dot product of the
    cosine-transformed rows of items 0 and 1 is the double
    9007199254740990 * 2^-54, that is 1/2 - 2^-53 (printed
    0.4999999999999999): it equals 1/2 within a relative tolerance of
    1e-9, and is not the double 1/2.  The dot product for items 0 and 2 is
    exactly 0.  Both hold whether the matrix is dense, sparse, or sparse
    and made dense. *)
Theorem cosine_example_scores_binary64 :
  (dot_product_scorer_b64 (cosine_transform_b64 example_dense_b64 false) 0 1
   = S754_finite false 9007199254740990 (-54)
   /\ dot_product_scorer_b64
        (cosine_transform_b64 example_sparse_b64 false) 0 1
      = S754_finite false 9007199254740990 (-54)
   /\ dot_product_scorer_b64
        (cosine_transform_b64 example_sparse_b64 true) 0 1
      = S754_finite false 9007199254740990 (-54))
  /\ (float_of_b64 (S754_finite false 9007199254740990 (-54))
      = Fin (1 / 2 - (1 / 2) ^ 53)
      /\ Rabs ((1 / 2 - (1 / 2) ^ 53) - 1 / 2) <= 1 / 10 ^ 9 * (1 / 2)
      /\ 1 / 2 - (1 / 2) ^ 53 <> 1 / 2)
  /\ (dot_product_scorer_b64 (cosine_transform_b64 example_dense_b64 false) 0 2
      = b64_of_Z 0
      /\ dot_product_scorer_b64
           (cosine_transform_b64 example_sparse_b64 false) 0 2
         = b64_of_Z 0
      /\ dot_product_scorer_b64
           (cosine_transform_b64 example_sparse_b64 true) 0 2
         = b64_of_Z 0
      /\ float_of_b64 (b64_of_Z 0) = Fin 0).
Proof.
  split; [|split].
  - repeat split; vm_compute; reflexivity.
  - split; [apply b64_half_values|].
    assert (Hpos : 0 < (1 / 2) ^ 53) by (apply pow_lt; lra).
    assert (Hle : (1 / 2) ^ 53 <= 1 / 10 ^ 9 * (1 / 2)).
    { simpl pow. lra. }
    split.
    + rewrite Rabs_left1 by lra. lra.
    + lra.
  - repeat split; vm_compute; reflexivity.
Qed.

(** ** Shared size *)

Lemma dot_binary_rows (u v : list bool) :
  dot (binary_row u) (binary_row v) = Fin (INR (shared_count u v)).
Proof.
  unfold dot, binary_row, f0, f1. revert v.
  induction u as [|a u IH]; intros [|b v]; try reflexivity.
  cbn [map map2 fsum fold_right shared_count]. fold (fsum (map2 fmul
    (map (fun b0 : bool => if b0 then Fin 1 else Fin 0) u)
    (map (fun b0 : bool => if b0 then Fin 1 else Fin 0) v))).
  rewrite IH, plus_INR. destruct a, b; simpl; f_equal; lra.
Qed.

Lemma entry_divide_scalar (adj : matrix) (s : R) (i j : nat) (x : float) :
  0 < s ->
  finite_matrix adj ->
  entry adj i j = Some x ->
  entry (divide_scalar adj (Fin s)) i j = Some (fdiv x (Fin s)).
Proof.
  intros Hs Hfin Hx. destruct adj as [m rows | f m rows].
  - cbn [divide_scalar]. rewrite entry_Dense in Hx; rewrite entry_Dense. rewrite nth_error_map.
    destruct (nth_error rows i) as [r|]; [|discriminate]. cbn [option_map].
    rewrite nth_error_map, Hx. reflexivity.
  - cbn [divide_scalar]. rewrite entry_Sparse in Hx; rewrite entry_Sparse. rewrite nth_error_map.
    destruct (nth_error rows i) as [r|] eqn:Hr; [|discriminate]. cbn [option_map].
    destruct (j <? m)%nat; [|discriminate]. injection Hx as <-.
    simpl in Hfin. rewrite Forall_forall in Hfin.
    specialize (Hfin r (nth_error_In _ _ Hr)).
    rewrite fdiv_Fin by lra.
    destruct (entry_at_scaled (fun _ => Fin (1 / s)) j (1 / s) r eq_refl Hfin)
      as [a [Ha Ha']].
    unfold sprow_scale. rewrite Ha', Ha, fdiv_Fin by lra.
    do 2 f_equal. field. lra.
Qed.

Lemma entry_multiply_scalar (adj : matrix) (c : R) (i j : nat) (x : float) :
  finite_matrix adj ->
  entry adj i j = Some x ->
  entry (multiply_scalar adj (Fin c)) i j = Some (fmul x (Fin c)).
Proof.
  intros Hfin Hx. destruct adj as [m rows | f m rows].
  - cbn [multiply_scalar]. rewrite entry_Dense in Hx; rewrite entry_Dense. rewrite nth_error_map.
    destruct (nth_error rows i) as [r|]; [|discriminate]. cbn [option_map].
    rewrite nth_error_map, Hx. reflexivity.
  - cbn [multiply_scalar]. rewrite entry_Sparse in Hx; rewrite entry_Sparse. rewrite nth_error_map.
    destruct (nth_error rows i) as [r|] eqn:Hr; [|discriminate]. cbn [option_map].
    destruct (j <? m)%nat; [|discriminate]. injection Hx as <-.
    simpl in Hfin. rewrite Forall_forall in Hfin.
    specialize (Hfin r (nth_error_In _ _ Hr)).
    destruct (entry_at_scaled (fun _ => Fin c) j c r eq_refl Hfin)
      as [a [Ha Ha']].
    unfold sprow_scale. rewrite Ha', Ha. reflexivity.
Qed.

Lemma entry_Sparse_in_range (f : spformat) (m : nat) (rows : list sprow)
    (i j : nat) (x : float) :
  entry (Sparse f m rows) i j = Some x -> (j < m)%nat.
Proof.
  rewrite entry_Sparse. destruct (nth_error rows i); [|discriminate].
  destruct (Nat.ltb_spec j m); [trivial | discriminate].
Qed.

Lemma entry_Sparse_finite (f : spformat) (m : nat) (rows : list sprow)
    (i j : nat) (x : float) :
  finite_matrix (Sparse f m rows) ->
  entry (Sparse f m rows) i j = Some x -> finite x.
Proof.
  intros Hfin. rewrite entry_Sparse.
  destruct (nth_error rows i) as [r|] eqn:Hr; [|discriminate].
  destruct (j <? m)%nat; [|discriminate]. intros [= <-].
  simpl in Hfin. rewrite Forall_forall in Hfin.
  specialize (Hfin r (nth_error_In _ _ Hr)).
  destruct (entry_at_scaled (fun _ => Fin 1) j 1 r eq_refl Hfin) as [a [-> _]].
  reflexivity.
Qed.

Lemma shared_size_divides (adj : matrix) (make_dense : bool) (i j : nat)
    (x : float) :
  finite_matrix adj ->
  entry adj i j = Some x ->
  entry (shared_size_transform adj false make_dense) i j
  = Some (fdiv x (fsqrt (Fin (INR (shape1 adj))))).
Proof.
  intros Hfin Hx. unfold shared_size_transform.
  destruct adj as [m rows | f m rows].
  - cbn [isspmatrix andb shape1 divide_scalar]. rewrite entry_Dense in Hx.
    rewrite entry_Dense, nth_error_map.
    destruct (nth_error rows i) as [r|]; [|discriminate]. cbn [option_map].
    rewrite nth_error_map, Hx. reflexivity.
  - pose proof (entry_Sparse_in_range _ _ _ _ _ _ Hx) as Hj.
    assert (Hm : 0 < sqrt (INR m)) by (apply sqrt_INR_pos; lia).
    pose proof (entry_Sparse_finite _ _ _ _ _ _ Hfin Hx) as Hfx.
    apply finite_Fin in Hfx. destruct Hfx as [a ->].
    cbn [isspmatrix andb shape1]. rewrite fsqrt_INR, !fdiv_Fin by lra.
    destruct make_dense; cbn [negb].
    + rewrite (entry_divide_scalar _ _ _ _ _ Hm Hfin Hx).
      rewrite fdiv_Fin by lra. reflexivity.
    + rewrite (entry_multiply_scalar _ _ _ _ _ Hfin Hx).
      cbn [fmul]. do 2 f_equal. field. lra.
Qed.

(** C8.  In back-compatible mode [shared_size_transform] returns its
    input unchanged, so that the score of two 0/1 rows is the number of
    affiliations they share (1 for the rows [1,1,0,0] and [1,0,1,0]);
    otherwise every entry is divided by sqrt(m), m the number of
    columns. *)
Theorem shared_size_transform_modes :
  (forall adj make_dense, shared_size_transform adj true make_dense = adj)
  /\ (forall u v make_dense,
        dot_product_scorer
          (shared_size_transform
             (Dense (length u) [binary_row u; binary_row v]) true make_dense)
          0 1
        = Fin (INR (shared_count u v)))
  /\ dot_product_scorer (shared_size_transform example_dense true false) 0 1
     = Fin 1
  /\ dot_product_scorer (shared_size_transform example_sparse true false) 0 1
     = Fin 1
  /\ (forall adj make_dense i j x,
        finite_matrix adj ->
        entry adj i j = Some x ->
        entry (shared_size_transform adj false make_dense) i j
        = Some (fdiv x (fsqrt (Fin (INR (shape1 adj)))))).
Proof.
  split; [reflexivity|].
  split; [intros u v md; apply dot_binary_rows|].
  split; [apply (dot_binary_rows [true; true; false; false]
                                  [true; false; true; false])|].
  split; [|intros; now apply shared_size_divides].
  cbn [shared_size_transform]. unfold dot_product_scorer.
  rewrite toarray_example_sparse.
  apply (dot_binary_rows [true; true; false; false]
                         [true; false; true; false]).
Qed.

Lemma shared_size_transform_modes_witness :
  finite_matrix example_sparse
  /\ entry example_sparse 0 1 = Some (Fin (1 + 0))
  /\ entry (shared_size_transform example_sparse false false) 0 1
     = Some (fdiv (Fin (1 + 0)) (fsqrt (Fin (INR 4)))).
Proof.
  assert (Hfin : finite_matrix example_sparse).
  { repeat constructor. }
  assert (He : entry example_sparse 0 1 = Some (Fin (1 + 0))) by reflexivity.
  split; [exact Hfin|]. split; [exact He|].
  destruct shared_size_transform_modes as (_ & _ & _ & _ & H).
  exact (H example_sparse false 0%nat 1%nat (Fin (1 + 0)) Hfin He).
Defined.

(** ** Column-wise scaling, entry by entry *)

Lemma entry_tocsr (adj : matrix) (i j : nat) :
  entry (tocsr adj) i j = entry adj i j.
Proof. destruct adj; reflexivity. Qed.

Lemma entry_divide (adj : matrix) (v : vector) (i j : nat) (x d : float) :
  nth_error v j = Some d ->
  entry adj i j = Some x ->
  entry (divide adj v) i j = Some (fdiv x d).
Proof.
  intros Hd Hx. unfold divide. rewrite entry_Dense, nth_error_map.
  unfold entry in Hx. destruct (nth_error (toarray adj) i) as [r|];
    [|discriminate].
  cbn [option_map]. rewrite nth_error_map2, Hx, Hd. reflexivity.
Qed.

Lemma entry_multiply (adj : matrix) (v : vector) (i j : nat) (x : float)
    (c : R) :
  nth_error v j = Some (Fin c) ->
  finite_matrix adj ->
  entry adj i j = Some x ->
  entry (multiply adj v) i j = Some (fmul x (Fin c)).
Proof.
  intros Hc Hfin Hx. destruct adj as [m rows | f m rows]; cbn [multiply].
  - rewrite entry_Dense in Hx. rewrite entry_Dense, nth_error_map.
    destruct (nth_error rows i) as [r|]; [|discriminate]. cbn [option_map].
    rewrite nth_error_map2, Hx, Hc. reflexivity.
  - rewrite entry_Sparse in Hx. rewrite entry_Sparse, nth_error_map.
    destruct (nth_error rows i) as [r|] eqn:Hr; [|discriminate].
    cbn [option_map]. destruct (j <? m)%nat; [|discriminate].
    injection Hx as <-. simpl in Hfin. rewrite Forall_forall in Hfin.
    specialize (Hfin r (nth_error_In _ _ Hr)).
    destruct (entry_at_scaled (fun k => nth k v NaN) j c r
                (nth_error_nth _ _ _ Hc) Hfin) as [a [Ha Ha']].
    rewrite Ha', Ha. reflexivity.
Qed.

Lemma entry_finite (adj : matrix) (i j : nat) (x : float) :
  finite_matrix adj -> entry adj i j = Some x -> finite x.
Proof.
  destruct adj as [m rows | f m rows]; intros Hfin Hx.
  - rewrite entry_Dense in Hx.
    destruct (nth_error rows i) as [r|] eqn:Hr; [|discriminate].
    simpl in Hfin. rewrite Forall_forall in Hfin.
    specialize (Hfin r (nth_error_In _ _ Hr)). rewrite Forall_forall in Hfin.
    apply Hfin. eapply nth_error_In, Hx.
  - eapply entry_Sparse_finite; eassumption.
Qed.

(** A transform of the shape "multiply by 1/d when sparse, divide by d
    otherwise" divides every entry by the divisor of its column. *)
Lemma entry_scaled_by_divisor (adj : matrix) (ds : vector) (make_dense : bool)
    (i j : nat) (x : float) (d : R) :
  0 < d ->
  nth_error ds j = Some (Fin d) ->
  finite_matrix adj ->
  entry adj i j = Some x ->
  entry (if isspmatrix adj && negb make_dense
         then tocsr (multiply adj (map (fdiv (Fin 1)) ds))
         else divide adj ds) i j
  = Some (fdiv x (Fin d)).
Proof.
  intros Hd Hds Hfin Hx.
  destruct (isspmatrix adj && negb make_dense).
  - rewrite entry_tocsr.
    assert (Hinv : nth_error (map (fdiv (Fin 1)) ds) j = Some (Fin (1 / d))).
    { rewrite nth_error_map, Hds. cbn [option_map].
      rewrite fdiv_Fin by lra. reflexivity. }
    rewrite (entry_multiply _ _ _ _ _ _ Hinv Hfin Hx).
    pose proof (entry_finite _ _ _ _ Hfin Hx) as Hfx.
    apply finite_Fin in Hfx. destruct Hfx as [a ->].
    rewrite fdiv_Fin by lra. cbn [fmul]. do 2 f_equal. field. lra.
  - apply entry_divide; assumption.
Qed.

(** ** Affiliation counts *)

Lemma affil_count_ge_2 (n p : R) : 2 <= Rmax (n * p) 2.
Proof. apply Rmax_r. Qed.

Lemma ln_ge_2_pos (c : R) : 2 <= c -> 0 < ln c.
Proof.
  intros Hc. rewrite <- ln_1. apply ln_increasing; lra.
Qed.

Lemma nth_error_affil_counts (num_docs : Z) (pi_vector : vector) (j : nat)
    (p : R) :
  nth_error pi_vector j = Some (Fin p) ->
  nth_error (affil_counts num_docs pi_vector) j
  = Some (Fin (Rmax (IZR num_docs * p) 2)).
Proof.
  intros Hp. unfold affil_counts. rewrite nth_error_map, Hp. reflexivity.
Qed.

Lemma nth_error_newman_divisor (num_docs : Z) (pi_vector : vector) (j : nat)
    (p : R) :
  nth_error pi_vector j = Some (Fin p) ->
  nth_error (newman_divisor num_docs pi_vector) j
  = Some (Fin (sqrt (Rmax (IZR num_docs * p) 2 - 1))).
Proof.
  intros Hp. unfold newman_divisor.
  rewrite nth_error_map, (nth_error_affil_counts _ _ _ _ Hp).
  cbn [option_map fsub]. rewrite fsqrt_Fin; [reflexivity|].
  pose proof (affil_count_ge_2 (IZR num_docs) p). lra.
Qed.

Lemma nth_error_adamic_adar_divisor (num_docs : Z) (pi_vector : vector)
    (j : nat) (p : R) :
  nth_error pi_vector j = Some (Fin p) ->
  nth_error (adamic_adar_divisor num_docs pi_vector) j
  = Some (Fin (sqrt (ln (Rmax (IZR num_docs * p) 2)))).
Proof.
  intros Hp. unfold adamic_adar_divisor.
  rewrite nth_error_map, (nth_error_affil_counts _ _ _ _ Hp).
  cbn [option_map]. pose proof (affil_count_ge_2 (IZR num_docs) p) as H2.
  pose proof (ln_ge_2_pos _ H2).
  rewrite flog_Fin, fsqrt_Fin by lra. reflexivity.
Qed.

(** C5.  For a popularity [p] of column j and any [num_docs], the
    affiliation count that [newman_transform] and [adamic_adar_transform]
    use is max(num_docs * p, 2): at least 2, and exactly 2 when
    num_docs * p < 2.  The divisors sqrt(count - 1) and sqrt(log(count))
    are therefore strictly positive numbers (the count is never 1), and
    the transforms divide the entries of column j by them. *)
Theorem affil_count_floor (num_docs : Z) (pi_vector : vector) (j : nat)
    (p : R) :
  nth_error pi_vector j = Some (Fin p) ->
  let c := Rmax (IZR num_docs * p) 2 in
  nth_error (affil_counts num_docs pi_vector) j = Some (Fin c)
  /\ 2 <= c
  /\ (IZR num_docs * p < 2 -> c = 2)
  /\ nth_error (newman_divisor num_docs pi_vector) j = Some (Fin (sqrt (c - 1)))
  /\ 0 < sqrt (c - 1)
  /\ nth_error (adamic_adar_divisor num_docs pi_vector) j
     = Some (Fin (sqrt (ln c)))
  /\ 0 < sqrt (ln c)
  /\ c <> 1
  /\ (forall adj make_dense i x,
        finite_matrix adj ->
        entry adj i j = Some x ->
        entry (newman_transform adj pi_vector num_docs make_dense) i j
        = Some (fdiv x (Fin (sqrt (c - 1))))
        /\ entry (adamic_adar_transform adj pi_vector num_docs make_dense) i j
           = Some (fdiv x (Fin (sqrt (ln c))))).
Proof.
  intros Hp c.
  assert (H2 : 2 <= c) by apply affil_count_ge_2.
  assert (Hn : 0 < sqrt (c - 1)) by (apply sqrt_lt_R0; lra).
  assert (Ha : 0 < sqrt (ln c)) by (apply sqrt_lt_R0, ln_ge_2_pos, H2).
  repeat split; try assumption; try lra.
  - now apply nth_error_affil_counts.
  - intros Hlt. unfold c. apply Rmax_right. lra.
  - now apply nth_error_newman_divisor.
  - now apply nth_error_adamic_adar_divisor.
  - unfold newman_transform.
    apply entry_scaled_by_divisor; try assumption.
    now apply nth_error_newman_divisor.
  - unfold adamic_adar_transform.
    apply entry_scaled_by_divisor; try assumption.
    now apply nth_error_adamic_adar_divisor.
Qed.

Lemma affil_count_floor_witness :
  nth_error (affil_counts 3 [Fin (1 / 3)]) 0 = Some (Fin 2)
  /\ entry (newman_transform (Dense 1 [[Fin 1]]) [Fin (1 / 3)] 3 false) 0 0
     = Some (fdiv (Fin 1) (Fin (sqrt (Rmax (IZR 3 * (1 / 3)) 2 - 1)))).
Proof.
  destruct (affil_count_floor 3 [Fin (1 / 3)] 0 (1 / 3) eq_refl)
    as (H1 & _ & H3 & _ & _ & _ & _ & _ & H9).
  split.
  - rewrite H1. do 2 f_equal. apply H3. lra.
  - apply (H9 (Dense 1 [[Fin 1]]) false 0%nat (Fin 1)).
    + repeat constructor.
    + reflexivity.
Defined.

(** ** Shared weight (1,1) *)

Lemma ln_inv_nonneg (p : R) : 0 < p <= 1 -> 0 <= ln (1 / p).
Proof.
  intros [Hp Hp1]. destruct (Req_dec_T p 1) as [->|Hne].
  - replace (1 / 1) with 1 by field. rewrite ln_1. lra.
  - left. rewrite <- ln_1. apply ln_increasing; [lra|].
    apply Rmult_lt_reg_r with p; [assumption|].
    unfold Rdiv. rewrite Rmult_assoc, Rinv_l by lra. lra.
Qed.

Lemma nth_error_weight11 (pi_vector : vector) (j : nat) (p : R) :
  nth_error pi_vector j = Some (Fin p) ->
  0 < p <= 1 ->
  nth_error (weight11 pi_vector) j = Some (Fin (sqrt (ln (1 / p)))).
Proof.
  intros Hj Hp. unfold weight11. rewrite nth_error_map, Hj. cbn [option_map].
  assert (0 < 1 / p) by (apply Rdiv_lt_0_compat; lra).
  rewrite fdiv_Fin, flog_Fin, fsqrt_Fin by (try apply ln_inv_nonneg; lra).
  reflexivity.
Qed.

Lemma nth_error_weight11_zero (pi_vector : vector) (j : nat) :
  nth_error pi_vector j = Some (Fin 0) ->
  nth_error (weight11 pi_vector) j = Some PInf.
Proof.
  intros Hj. unfold weight11. rewrite nth_error_map, Hj. cbn [option_map].
  unfold fdiv. case_dec. reflexivity.
Qed.

Lemma fmul_PInf_not_finite (x : float) : isfinite (fmul x PInf) = false.
Proof.
  destruct x; try reflexivity. cbn [fmul]. unfold inf_times.
  case_dec; reflexivity.
Qed.

Lemma shared_weight11_entry (adj : matrix) (pi_vector : vector) (i j : nat)
    (x : float) (p : R) :
  nth_error pi_vector j = Some (Fin p) ->
  0 < p <= 1 ->
  finite_matrix adj ->
  entry adj i j = Some x ->
  entry (shared_weight11_transform adj pi_vector) i j
  = Some (fmul x (Fin (sqrt (ln (1 / p))))).
Proof.
  intros Hp Hp01 Hfin Hx. unfold shared_weight11_transform.
  pose proof (nth_error_weight11 _ _ _ Hp Hp01) as Hw.
  destruct (isspmatrix adj); [rewrite entry_tocsr|];
    apply entry_multiply; assumption.
Qed.

(** C6.  For a popularity 0 < p <= 1 of column j,
    [shared_weight11_transform] multiplies the entries of column j by
    sqrt(log(1/p)).  For p = 0 the factor is the logarithm of infinity:
    it is +inf, and no entry of column j of an array is mapped to a
    number.  A sparse input gives a sparse output in CSR storage. *)
Theorem shared_weight11_columns :
  (forall pi_vector j p,
      nth_error pi_vector j = Some (Fin p) ->
      0 < p <= 1 ->
      nth_error (weight11 pi_vector) j = Some (Fin (sqrt (ln (1 / p))))
      /\ forall adj i x,
           finite_matrix adj ->
           entry adj i j = Some x ->
           entry (shared_weight11_transform adj pi_vector) i j
           = Some (fmul x (Fin (sqrt (ln (1 / p))))))
  /\ (forall pi_vector j,
        nth_error pi_vector j = Some (Fin 0) ->
        nth_error (weight11 pi_vector) j = Some PInf
        /\ forall m rows i x,
             entry (Dense m rows) i j = Some x ->
             exists y,
               entry (shared_weight11_transform (Dense m rows) pi_vector) i j
               = Some y
               /\ isfinite y = false)
  /\ (forall adj pi_vector,
        isspmatrix adj = true ->
        exists rows,
          shared_weight11_transform adj pi_vector
          = Sparse CSR (shape1 adj) rows).
Proof.
  split; [|split].
  - intros pi_vector j p Hj Hp. split.
    + now apply nth_error_weight11.
    + intros adj i x Hfin Hx. now apply shared_weight11_entry.
  - intros pi_vector j Hj. split.
    + now apply nth_error_weight11_zero.
    + intros m rows i x Hx. exists (fmul x PInf). split.
      * unfold shared_weight11_transform. cbn [isspmatrix multiply].
        rewrite entry_Dense in Hx. rewrite entry_Dense, nth_error_map.
        destruct (nth_error rows i) as [r|]; [|discriminate].
        cbn [option_map].
        rewrite nth_error_map2, Hx, (nth_error_weight11_zero _ _ Hj).
        reflexivity.
      * apply fmul_PInf_not_finite.
  - intros adj pi_vector Hsp. destruct adj as [m rows | f m rows];
      [discriminate|].
    unfold shared_weight11_transform. cbn [isspmatrix multiply tocsr shape1].
    eexists. reflexivity.
Qed.

Lemma shared_weight11_columns_witness :
  entry (shared_weight11_transform example_sparse
           [Fin 1; Fin (1 / 3); Fin (1 / 3); Fin (1 / 3)]) 0 1
  = Some (fmul (Fin (1 + 0)) (Fin (sqrt (ln (1 / (1 / 3))))))
  /\ nth_error (weight11 [Fin 0]) 0 = Some PInf
  /\ (exists y,
         entry (shared_weight11_transform (Dense 1 [[Fin 0]]) [Fin 0]) 0 0
         = Some y /\ isfinite y = false)
  /\ exists rows,
       shared_weight11_transform example_sparse [] = Sparse CSR 4 rows.
Proof.
  destruct shared_weight11_columns as (Ha & Hb & Hc).
  split; [|split; [|split]].
  - refine (proj2 (Ha [Fin 1; Fin (1 / 3); Fin (1 / 3); Fin (1 / 3)]
                      1%nat (1 / 3) eq_refl _)
                  example_sparse 0%nat (Fin (1 + 0)) _ eq_refl).
    + lra.
    + repeat constructor.
  - exact (proj1 (Hb [Fin 0] 0%nat eq_refl)).
  - exact (proj2 (Hb [Fin 0] 0%nat eq_refl) 1%nat [[Fin 0]] 0%nat (Fin 0)
                 eq_refl).
  - exact (Hc example_sparse [] eq_refl).
Defined.

(** ** Weighted correlation *)

Lemma handle_01_degenerate (p : R) :
  p = 0 \/ p = 1 -> handle_01 (Fin p) = Fin (1 / 2).
Proof.
  intros [-> | ->]; unfold handle_01.
  - rewrite feqb_Fin_refl, feqb_Fin_neq by lra. reflexivity.
  - rewrite (feqb_Fin_neq 1 0), feqb_Fin_refl by lra. reflexivity.
Qed.

Lemma nth_error_wc_denominator (m : nat) (pi_vector : vector) (j : nat)
    (p : R) :
  nth_error pi_vector j = Some (Fin p) ->
  p = 0 \/ p = 1 ->
  nth_error (wc_denominator m pi_vector) j
  = Some (Fin (sqrt (1 / 2 * (1 - 1 / 2) * INR m))).
Proof.
  intros Hj Hp. unfold wc_denominator.
  rewrite !nth_error_map, Hj. cbn [option_map].
  rewrite (handle_01_degenerate _ Hp). cbn [fsub fmul].
  rewrite fsqrt_Fin; [reflexivity|].
  pose proof (pos_INR m). nra.
Qed.

Lemma wc_entry (adj : matrix) (pi_vector : vector) (i j : nat) (x p d : float) :
  nth_error pi_vector j = Some p ->
  nth_error (wc_denominator (shape1 adj) pi_vector) j = Some d ->
  entry adj i j = Some x ->
  entry (wc_transform adj pi_vector) i j = Some (fdiv (fsub x p) d).
Proof.
  intros Hp Hd Hx. unfold wc_transform. rewrite entry_Dense, nth_error_map.
  unfold entry in Hx.
  destruct (nth_error (toarray adj) i) as [r|]; [|discriminate].
  cbn [option_map]. rewrite !nth_error_map2, Hx, Hp, Hd. reflexivity.
Qed.

(** C4, as the code has it.  For a column j with popularity 0 or 1,
    [wc_transform] puts 0.5 in place of the popularity in the denominator,
    which is then the positive number sqrt(0.5 * (1 - 0.5) * m); a finite
    entry x of the column is mapped to the number (x - p) / that
    denominator, neither NaN nor infinite.  When the entries of the column
    all equal its popularity (the column is constant, as it is when the
    popularity was measured on the matrix), the column adds exactly 0 to
    the score of every pair. *)
Theorem wc_degenerate_column (adj : matrix) (pi_vector : vector) (j : nat)
    (p : R) :
  nth_error pi_vector j = Some (Fin p) ->
  p = 0 \/ p = 1 ->
  (0 < shape1 adj)%nat ->
  let d := sqrt (1 / 2 * (1 - 1 / 2) * INR (shape1 adj)) in
  nth_error (wc_denominator (shape1 adj) pi_vector) j = Some (Fin d)
  /\ 0 < d
  /\ (forall i x,
        entry adj i j = Some (Fin x) ->
        entry (wc_transform adj pi_vector) i j = Some (Fin ((x - p) / d)))
  /\ ((forall i x, entry adj i j = Some x -> x = Fin p) ->
      forall i k a b,
        entry adj i j = Some a ->
        entry adj k j = Some b ->
        entry (wc_transform adj pi_vector) i j = Some (Fin 0)
        /\ contribution (wc_transform adj pi_vector) j i k = Some (Fin 0)).
Proof.
  intros Hj Hp Hm d.
  pose proof (nth_error_wc_denominator (shape1 adj) _ _ _ Hj Hp) as Hd.
  fold d in Hd.
  assert (Hdpos : 0 < d).
  { apply sqrt_lt_R0. pose proof (lt_0_INR _ Hm). nra. }
  assert (Hentry : forall i x,
             entry adj i j = Some (Fin x) ->
             entry (wc_transform adj pi_vector) i j = Some (Fin ((x - p) / d))).
  { intros i x Hx. rewrite (wc_entry _ _ _ _ _ _ _ Hj Hd Hx).
    cbn [fsub]. rewrite fdiv_Fin by lra. reflexivity. }
  assert (Hzero : (p - p) / d = 0) by (unfold Rdiv; rewrite Rminus_diag; lra).
  split; [exact Hd|]. split; [exact Hdpos|]. split; [exact Hentry|].
  intros Hconst i k a b Ha Hb.
  pose proof (Hconst i a Ha). pose proof (Hconst k b Hb). subst a b.
  split.
  - rewrite (Hentry _ _ Ha), Hzero. reflexivity.
  - unfold contribution.
    rewrite (Hentry _ _ Ha), (Hentry _ _ Hb), Hzero. cbn [fmul].
    do 2 f_equal; lra.
Qed.

Lemma wc_degenerate_column_witness :
  entry (wc_transform (Dense 2 [[Fin 1; Fin 0]; [Fin 1; Fin 1]])
           [Fin 1; Fin (1 / 2)]) 0 0 = Some (Fin 0)
  /\ contribution (wc_transform (Dense 2 [[Fin 1; Fin 0]; [Fin 1; Fin 1]])
                     [Fin 1; Fin (1 / 2)]) 0 0 1 = Some (Fin 0).
Proof.
  refine (proj2 (proj2 (proj2
    (wc_degenerate_column (Dense 2 [[Fin 1; Fin 0]; [Fin 1; Fin 1]])
       [Fin 1; Fin (1 / 2)] 0 1 eq_refl (or_intror eq_refl) _))) _
       0%nat 1%nat (Fin 1) (Fin 1) eq_refl eq_refl).
  - simpl. lia.
  - intros [|[|i]] x; unfold entry; simpl; intros H.
    + now injection H as <-.
    + now injection H as <-.
    + destruct i; discriminate.
Defined.

Lemma sqrt_quarter : sqrt (1 / 2 * (1 - 1 / 2) * INR 1) = 1 / 2.
Proof.
  replace (1 / 2 * (1 - 1 / 2) * INR 1) with (1 / 2 * (1 / 2))
    by (simpl; lra).
  apply sqrt_square. lra.
Qed.

(** C4, as stated, fails.  Popularity 0 is a valid popularity, yet on a
    column that holds a 1 the transformed entry is 2 and the column adds 4
    to the score of item 0 with itself. *)
Lemma wc_contribution_counterexample :
  nth_error [Fin 0] 0 = Some (Fin 0)
  /\ 0 <= 0 <= 1
  /\ entry (wc_transform (Dense 1 [[Fin 1]]) [Fin 0]) 0 0 = Some (Fin 2)
  /\ contribution (wc_transform (Dense 1 [[Fin 1]]) [Fin 0]) 0 0 0
     = Some (Fin 4)
  /\ Fin 4 <> Fin 0.
Proof.
  assert (He : entry (wc_transform (Dense 1 [[Fin 1]]) [Fin 0]) 0 0
               = Some (Fin 2)).
  { rewrite (wc_entry (Dense 1 [[Fin 1]]) [Fin 0] 0 0 (Fin 1) (Fin 0)
               (Fin (1 / 2)) eq_refl).
    - cbn [fsub]. rewrite fdiv_Fin by lra. do 2 f_equal. lra.
    - cbn [shape1].
      rewrite (nth_error_wc_denominator 1 [Fin 0] 0 0 eq_refl (or_introl eq_refl)).
      rewrite sqrt_quarter. reflexivity.
    - reflexivity. }
  repeat split; try lra; try assumption.
  - unfold contribution. rewrite He. cbn [fmul]. do 2 f_equal; lra.
  - intros [= H]. lra.
Qed.

(** ** Rows of numbers *)

Lemma length_Fins (xs : list R) : length (Fins xs) = length xs.
Proof. apply length_map. Qed.

Lemma fsum_Fins (xs : list R) : fsum (Fins xs) = Fin (Rsum xs).
Proof.
  induction xs as [|x xs IH]; [reflexivity|].
  change (fsum (Fins (x :: xs))) with (fadd (Fin x) (fsum (Fins xs))).
  rewrite IH. reflexivity.
Qed.

Lemma map_Fins (g : float -> float) (g' : R -> R) (xs : list R) :
  (forall x, g (Fin x) = Fin (g' x)) ->
  map g (Fins xs) = Fins (map g' xs).
Proof.
  intros Hg. unfold Fins. rewrite !map_map. apply map_ext. intros x. apply Hg.
Qed.

Lemma INR_length_pos {A : Type} (xs : list A) : xs <> [] -> 0 < INR (length xs).
Proof.
  intros H. apply lt_0_INR. destruct xs; [contradiction | simpl; lia].
Qed.


(** ** Mean and variance of real rows *)

Lemma Rsum_cons (x : R) (xs : list R) : Rsum (x :: xs) = x + Rsum xs.
Proof. reflexivity. Qed.




Lemma Rsum_map_div (f : R -> R) (c : R) (xs : list R) :
  Rsum (map (fun x => f x / c) xs) = Rsum (map f xs) / c.
Proof.
  induction xs as [|x xs IH].
  - unfold Rsum, Rdiv. simpl. now rewrite Rmult_0_l.
  - cbn [map]. rewrite !Rsum_cons, IH. unfold Rdiv. ring.
Qed.



(** A row [xs] with at least one entry. *)
Section RowStatistics.

Variable xs : list R.
Hypothesis Hne : xs <> [].







End RowStatistics.




(** ** Cosine *)

(** The sum of the squares of finite stored entries is a number >= 0. *)
Lemma fsum_squares_sprow (r : sprow) :
  Forall (fun e => finite (snd e)) r ->
  exists s, 0 <= s /\ fsum (map (fun e => fmul (snd e) (snd e)) r) = Fin s.
Proof.
  induction 1 as [|[k x] t Hx _ IH].
  - exists 0. split; [lra | reflexivity].
  - destruct IH as [s [Hs Hsum]]. apply finite_Fin in Hx.
    destruct Hx as [a Ha]. cbn [snd] in Ha. subst x.
    exists (a * a + s). split; [nra|].
    cbn [map fsum fold_right snd]. fold (fsum (map (fun e : nat * float =>
      fmul (snd e) (snd e)) t)). rewrite Hsum. reflexivity.
Qed.

(** The factor that the sparse branch gives a row of finite entries is a
    number: 1 / norm, or 0 when the norm is 0. *)
Lemma sparse_row_norm_finite (r : sprow) :
  Forall (fun e => finite (snd e)) r ->
  exists c,
    zero_if_inf
      (fdiv (Fin 1) (fsqrt (fsum (map (fun e => fmul (snd e) (snd e)) r))))
    = Fin c.
Proof.
  intros Hr. destruct (fsum_squares_sprow r Hr) as [s [Hs ->]].
  rewrite fsqrt_Fin by assumption. unfold fdiv.
  destruct (Req_dec_T (sqrt s) 0).
  - case_dec. exists 0. reflexivity.
  - eexists. reflexivity.
Qed.

Lemma nth_error_map2_map {A B C : Type} (f : B -> A -> C) (g : A -> B)
    (l : list A) (i : nat) :
  nth_error (map2 f (map g l) l) i
  = option_map (fun a => f (g a) a) (nth_error l i).
Proof.
  rewrite nth_error_map2, nth_error_map. now destruct (nth_error l i).
Qed.

Lemma nth_error_map2_map_r {A B C : Type} (f : A -> B -> C) (g : A -> B)
    (l : list A) (i : nat) :
  nth_error (map2 f l (map g l)) i
  = option_map (fun a => f a (g a)) (nth_error l i).
Proof.
  rewrite nth_error_map2, nth_error_map. now destruct (nth_error l i).
Qed.

(** On a sparse matrix of finite entries [cosine_transform] multiplies
    every entry of a row by one number: the output has no NaN and no Inf,
    and a zero entry stays zero.  A row of zeros is mapped to zeros. *)
Lemma cosine_sparse_entries (f : spformat) (m : nat) (rows : list sprow)
    (i : nat) (r : sprow) :
  finite_matrix (Sparse f m rows) ->
  nth_error rows i = Some r ->
  exists c, forall j, (j < m)%nat ->
    exists a, entry (Sparse f m rows) i j = Some (Fin a)
      /\ entry (cosine_transform (Sparse f m rows) false) i j
         = Some (Fin (a * c)).
Proof.
  intros Hfin Hi. simpl in Hfin. rewrite Forall_forall in Hfin.
  specialize (Hfin r (nth_error_In _ _ Hi)).
  destruct (sparse_row_norm_finite r Hfin) as [c Hc]. exists c.
  intros j Hj. unfold cosine_transform. cbn [isspmatrix andb].
  rewrite !entry_Sparse, Hi. rewrite map_map, nth_error_map2_map, Hi.
  cbn [option_map]. apply Nat.ltb_lt in Hj. rewrite Hj.
  destruct (entry_at_scaled (fun _ => Fin c) j c r eq_refl Hfin)
    as [a [Ha Ha']].
  exists a. split; [now rewrite Ha|]. rewrite Hc. f_equal.
  rewrite <- Ha'. f_equal. apply map_ext. intros e. f_equal. apply fmul_comm.
Qed.

Lemma fsum_squares_zeros (k : nat) :
  fsum (map2 fmul (repeat (Fin 0) k) (repeat (Fin 0) k)) = Fin 0.
Proof.
  induction k as [|k IH]; [reflexivity|].
  cbn [repeat map2 fsum fold_right].
  fold (fsum (map2 fmul (repeat (Fin 0) k) (repeat (Fin 0) k))).
  rewrite IH. cbn [fmul fadd]. f_equal. lra.
Qed.

(** On an array the norm of a row of zeros is 0, which [np.isinf] does not
    select: the row is divided by 0 and every entry becomes NaN. *)
Lemma cosine_dense_zero_row (m : nat) (rows : list vector) (i k : nat) :
  nth_error rows i = Some (repeat (Fin 0) k) ->
  nth_error (toarray (cosine_transform (Dense m rows) false)) i
  = Some (repeat NaN k).
Proof.
  intros Hi. unfold cosine_transform. cbn [isspmatrix andb toarray].
  rewrite map_map, nth_error_map2_map_r, Hi. cbn [option_map].
  rewrite fsum_squares_zeros, fsqrt_Fin, sqrt_0 by lra.
  cbn [zero_if_inf isinf]. rewrite map_repeat, fdiv_0_0. reflexivity.
Qed.

Lemma dot_NaN_row (k : nat) (v : vector) :
  (0 < k)%nat -> v <> [] -> dot (repeat NaN k) v = NaN.
Proof.
  intros Hk Hv. destruct k; [lia|]. destruct v; [contradiction|]. reflexivity.
Qed.

(** X21.  On an array, the score of a row of zeros (of at least one
    entry) with any row that is not empty is NaN after
    [cosine_transform]. *)
Lemma cosine_dense_zero_row_score (m : nat) (rows : list vector)
    (i j k : nat) (r : vector) :
  nth_error rows i = Some (repeat (Fin 0) k) ->
  (0 < k)%nat ->
  nth_error rows j = Some r ->
  r <> [] ->
  dot_product_scorer (cosine_transform (Dense m rows) false) i j = NaN.
Proof.
  intros Hi Hk Hj Hr. unfold dot_product_scorer.
  rewrite (nth_error_nth _ _ _ (cosine_dense_zero_row m rows i k Hi)).
  apply dot_NaN_row; [assumption|].
  erewrite nth_error_nth.
  2:{ unfold cosine_transform. cbn [isspmatrix andb toarray].
      rewrite map_map, nth_error_map2_map_r, Hj. reflexivity. }
  destruct r; [contradiction | discriminate].
Qed.


Lemma dot_zero_row (u v : vector) :
  (forall k a b, nth_error u k = Some a -> nth_error v k = Some b ->
                 a = Fin 0 /\ finite b) ->
  dot u v = Fin 0.
Proof.
  unfold dot. revert v. induction u as [|a u IH]; intros [|b v] H;
    try reflexivity.
  destruct (H 0%nat a b eq_refl eq_refl) as [-> Hb].
  apply finite_Fin in Hb. destruct Hb as [y ->].
  cbn [map2 fsum fold_right]. fold (fsum (map2 fmul u v)).
  rewrite IH by (intros k; apply (H (S k))).
  cbn [fmul fadd]. f_equal. lra.
Qed.

Lemma entry_row (adj : matrix) (i : nat) :
  (i < length (toarray adj))%nat ->
  forall k, nth_error (nth i (toarray adj) []) k = entry adj i k.
Proof.
  intros Hi k. unfold entry.
  destruct (nth_error (toarray adj) i) as [r|] eqn:Hr.
  - now rewrite (nth_error_nth _ _ _ Hr).
  - apply nth_error_None in Hr. lia.
Qed.

Lemma length_toarray_cosine_sparse (f : spformat) (m : nat)
    (rows : list sprow) :
  length (toarray (cosine_transform (Sparse f m rows) false)) = length rows.
Proof.
  unfold cosine_transform. cbn [isspmatrix andb toarray].
  rewrite length_map. rewrite map_map.
  induction rows as [|r rows IH]; [reflexivity|].
  cbn [map map2 length]. now rewrite IH.
Qed.

(** X20.  The sparse branch of [cosine_transform] on a row of zeros of a
    matrix of finite entries: the row stays a row of zeros and its score
    with every row is 0. *)
Lemma cosine_sparse_zero_row (f : spformat) (m : nat) (rows : list sprow)
    (i j : nat) (ri rj : sprow) :
  finite_matrix (Sparse f m rows) ->
  nth_error rows i = Some ri ->
  nth_error rows j = Some rj ->
  (forall k, (k < m)%nat -> entry (Sparse f m rows) i k = Some (Fin 0)) ->
  (forall k, (k < m)%nat ->
     entry (cosine_transform (Sparse f m rows) false) i k = Some (Fin 0))
  /\ dot_product_scorer (cosine_transform (Sparse f m rows) false) i j
     = Fin 0.
Proof.
  intros Hfin Hi Hj Hzero.
  destruct (cosine_sparse_entries f m rows i ri Hfin Hi) as [ci Hci].
  destruct (cosine_sparse_entries f m rows j rj Hfin Hj) as [cj Hcj].
  assert (Hrow : forall k, (k < m)%nat ->
            entry (cosine_transform (Sparse f m rows) false) i k
            = Some (Fin 0)).
  { intros k Hk. destruct (Hci k Hk) as [a [Ha Ha']].
    rewrite (Hzero k Hk) in Ha. injection Ha as <-.
    rewrite Ha'. do 2 f_equal. lra. }
  split; [exact Hrow|].
  unfold dot_product_scorer. apply dot_zero_row. intros k a b.
  rewrite !entry_row
    by (rewrite length_toarray_cosine_sparse; apply nth_error_Some; congruence).
  intros Ha Hb.
  assert (Hk : (k < m)%nat).
  { pose proof Ha as Ha'. unfold cosine_transform in Ha'.
    cbn [isspmatrix andb] in Ha'. now apply entry_Sparse_in_range in Ha'. }
  rewrite (Hrow k Hk) in Ha. injection Ha as <-.
  destruct (Hcj k Hk) as [y [_ Hy]]. rewrite Hy in Hb. injection Hb as <-.
  split; reflexivity.
Qed.

(** ** Rows of zeros in an array *)

(** C2, at the input where the code departs from it.  The array
    [[0,0],[1,0]] has a row of zeros: the dense branch of
    [cosine_transform] maps it to a row of NaN, and its score with the
    other row is NaN instead of 0.  The flag [make_dense] sends the sparse
    form of the same matrix through that branch.  The sparse branch maps
    the same row to zeros, with score 0. *)
Theorem cosine_dense_zero_row_nan :
  cosine_transform (Dense 2 [[f0; f0]; [f1; f0]]) false
  = Dense 2 [[NaN; NaN]; [Fin (1 / 1); Fin (0 / 1)]]
  /\ dot_product_scorer
       (cosine_transform (Dense 2 [[f0; f0]; [f1; f0]]) false) 0 1 = NaN
  /\ nth_error
       (toarray (cosine_transform (Sparse CSR 2 [[]; [(0%nat, f1)]]) true)) 0
     = Some [NaN; NaN]
  /\ nth_error
       (toarray (cosine_transform (Sparse CSR 2 [[]; [(0%nat, f1)]]) false)) 0
     = Some [Fin 0; Fin 0]
  /\ dot_product_scorer
       (cosine_transform (Sparse CSR 2 [[]; [(0%nat, f1)]]) false) 0 1
     = Fin 0.
Proof.
  assert (Hd : cosine_transform (Dense 2 [[f0; f0]; [f1; f0]]) false
               = Dense 2 [[NaN; NaN]; [Fin (1 / 1); Fin (0 / 1)]]).
  { unfold cosine_transform, f0, f1. eval_lists.
    replace (0 * 0 + (0 * 0 + 0)) with 0 by lra.
    replace (1 * 1 + (0 * 0 + 0)) with 1 by lra.
    rewrite (fsqrt_Fin 0), (fsqrt_Fin 1), sqrt_0, sqrt_1 by lra. eval_lists.
    rewrite fdiv_0_0, !fdiv_Fin by lra. reflexivity. }
  assert (Hs : cosine_transform (Sparse CSR 2 [[]; [(0%nat, f1)]]) false
               = Sparse CSR 2 [[]; [(0%nat, Fin (1 / 1 * 1))]]).
  { unfold cosine_transform, f0, f1. eval_lists.
    replace (1 * 1 + 0) with 1 by lra.
    rewrite (fsqrt_Fin 1), sqrt_1, fdiv_Fin by lra. reflexivity. }
  split; [exact Hd|]. split; [rewrite Hd; reflexivity|].
  split; [|split].
  - apply (cosine_dense_zero_row 2 _ 0 2). reflexivity.
  - rewrite Hs. reflexivity.
  - rewrite Hs. unfold dot_product_scorer, f1. eval_lists. f_equal. lra.
Qed.

(** C3, at the input where the code departs from it.  The 1 x 1 zero
    matrix in sparse and in dense form: [cosine_transform] and
    [cosine_weights_transform] return 0 on the sparse form and NaN on the
    dense form. *)
Theorem cosine_sparse_dense_disagree :
  toarray (Sparse CSR 1 [[]]) = toarray (Dense 1 [[Fin 0]])
  /\ toarray (cosine_transform (Sparse CSR 1 [[]]) false) = [[Fin 0]]
  /\ toarray (cosine_transform (Dense 1 [[Fin 0]]) false) = [[NaN]]
  /\ toarray (cosine_weights_transform (Sparse CSR 1 [[]]) [Fin 1] false)
     = [[Fin 0]]
  /\ toarray (cosine_weights_transform (Dense 1 [[Fin 0]]) [Fin 1] false)
     = [[NaN]].
Proof.
  assert (Hd : toarray (cosine_transform (Dense 1 [[Fin 0]]) false) = [[NaN]]).
  { unfold cosine_transform. eval_lists.
    replace (0 * 0 + 0) with 0 by lra.
    rewrite (fsqrt_Fin 0), sqrt_0 by lra. eval_lists.
    rewrite fdiv_0_0. reflexivity. }
  assert (Hs : toarray (cosine_transform (Sparse CSR 1 [[]]) false)
               = [[Fin 0]]).
  { unfold cosine_transform. eval_lists. reflexivity. }
  repeat split; try assumption.
  unfold cosine_weights_transform. eval_lists.
  replace (0 * 1) with 0 by lra. exact Hd.
Qed.

(** C10, at the input where the code departs from it.  The entries of the
    array [[0,0]] are zero and [cosine_transform] maps them to NaN; so
    does [cosine_weights_transform] on [[1,0]] with weights [0,1], whose
    weighted row is a row of zeros. *)
Theorem cosine_dense_zero_entry_becomes_nan :
  entry (Dense 2 [[f0; f0]]) 0 1 = Some (Fin 0)
  /\ entry (cosine_transform (Dense 2 [[f0; f0]]) false) 0 1 = Some NaN
  /\ entry (Dense 2 [[f1; f0]]) 0 1 = Some (Fin 0)
  /\ entry (cosine_weights_transform (Dense 2 [[f1; f0]]) [f0; f1] false) 0 1
     = Some NaN.
Proof.
  assert (H : entry (cosine_transform (Dense 2 [[f0; f0]]) false) 0 1
              = Some NaN).
  { unfold entry. rewrite (cosine_dense_zero_row 2 [[f0; f0]] 0 2 eq_refl).
    reflexivity. }
  repeat split; try assumption.
  unfold cosine_weights_transform, f0, f1. eval_lists.
  replace (1 * 0) with 0 by lra. replace (0 * 1) with 0 by lra. exact H.
Qed.

(** ** Sparse and dense forms under the column scalings *)

Lemma finite_toarray (adj : matrix) :
  finite_matrix adj -> finite_matrix (Dense (shape1 adj) (toarray adj)).
Proof.
  destruct adj as [m rows | f m rows]; intros Hfin; [exact Hfin|].
  simpl in *. apply Forall_map. revert Hfin. apply Forall_impl.
  intros r Hr. unfold toarray_row. apply Forall_map, Forall_forall.
  intros j _.
  destruct (entry_at_scaled (fun _ => Fin 1) j 1 r eq_refl Hr) as [a [-> _]].
  reflexivity.
Qed.

Lemma entry_toarray (adj : matrix) (i j : nat) :
  entry (Dense (shape1 adj) (toarray adj)) i j = entry adj i j.
Proof. reflexivity. Qed.

Lemma affil_counts_divisors (num_docs : Z) (pi_vector : vector) (j : nat)
    (p : R) :
  nth_error pi_vector j = Some (Fin p) ->
  exists dn da,
    0 < dn
    /\ nth_error (newman_divisor num_docs pi_vector) j = Some (Fin dn)
    /\ 0 < da
    /\ nth_error (adamic_adar_divisor num_docs pi_vector) j = Some (Fin da).
Proof.
  intros Hp. pose proof (affil_count_ge_2 (IZR num_docs) p) as H2.
  exists (sqrt (Rmax (IZR num_docs * p) 2 - 1)),
         (sqrt (ln (Rmax (IZR num_docs * p) 2))).
  split; [apply sqrt_lt_R0; lra|].
  split; [now apply nth_error_newman_divisor|].
  split; [apply sqrt_lt_R0, ln_ge_2_pos, H2|].
  now apply nth_error_adamic_adar_divisor.
Qed.

(** X18.  The transforms that scale columns ([newman_transform],
    [adamic_adar_transform], [shared_size_transform] and, for
    0 < p <= 1, [shared_weight11_transform]) give the same entries on a
    sparse matrix and on the array of the same matrix, whatever
    [make_dense] is on either side. *)
Lemma column_scalings_agree (adj : matrix) (pi_vector : vector)
    (num_docs : Z) (make_dense make_dense' : bool) (i j : nat) (x : float)
    (p : R) :
  nth_error pi_vector j = Some (Fin p) ->
  finite_matrix adj ->
  entry adj i j = Some x ->
  let arr := Dense (shape1 adj) (toarray adj) in
  entry (newman_transform adj pi_vector num_docs make_dense) i j
  = entry (newman_transform arr pi_vector num_docs make_dense') i j
  /\ entry (adamic_adar_transform adj pi_vector num_docs make_dense) i j
     = entry (adamic_adar_transform arr pi_vector num_docs make_dense') i j
  /\ entry (shared_size_transform adj false make_dense) i j
     = entry (shared_size_transform arr false make_dense') i j
  /\ (0 < p <= 1 ->
      entry (shared_weight11_transform adj pi_vector) i j
      = entry (shared_weight11_transform arr pi_vector) i j).
Proof.
  intros Hp Hfin Hx arr.
  pose proof (finite_toarray adj Hfin) as Hfin'. fold arr in Hfin'.
  assert (Hx' : entry arr i j = Some x) by exact Hx.
  destruct (affil_counts_divisors num_docs pi_vector j p Hp)
    as (dn & da & Hdn & Hn & Hda & Ha).
  repeat split.
  - unfold newman_transform.
    rewrite !(entry_scaled_by_divisor _ _ _ i j x dn) by assumption.
    reflexivity.
  - unfold adamic_adar_transform.
    rewrite !(entry_scaled_by_divisor _ _ _ i j x da) by assumption.
    reflexivity.
  - rewrite !(shared_size_divides _ _ i j x) by assumption. reflexivity.
  - intros Hp01.
    rewrite (shared_weight11_entry _ _ _ _ _ _ Hp Hp01 Hfin Hx).
    now rewrite (shared_weight11_entry _ _ _ _ _ _ Hp Hp01 Hfin' Hx').
Qed.

(** X19.  [newman_transform], [adamic_adar_transform] and, for
    0 < p <= 1, [shared_weight11_transform] map a zero entry of a matrix
    of finite entries to zero, in sparse and in dense form. *)
Lemma column_scalings_keep_zero (adj : matrix) (pi_vector : vector)
    (num_docs : Z) (make_dense : bool) (i j : nat) (p : R) :
  nth_error pi_vector j = Some (Fin p) ->
  finite_matrix adj ->
  entry adj i j = Some (Fin 0) ->
  entry (newman_transform adj pi_vector num_docs make_dense) i j
  = Some (Fin 0)
  /\ entry (adamic_adar_transform adj pi_vector num_docs make_dense) i j
     = Some (Fin 0)
  /\ (0 < p <= 1 ->
      entry (shared_weight11_transform adj pi_vector) i j = Some (Fin 0)).
Proof.
  intros Hp Hfin Hx.
  destruct (affil_counts_divisors num_docs pi_vector j p Hp)
    as (dn & da & Hdn & Hn & Hda & Ha).
  repeat split.
  - unfold newman_transform.
    rewrite (entry_scaled_by_divisor _ _ _ i j (Fin 0) dn) by assumption.
    rewrite fdiv_Fin by lra. do 2 f_equal. unfold Rdiv. ring.
  - unfold adamic_adar_transform.
    rewrite (entry_scaled_by_divisor _ _ _ i j (Fin 0) da) by assumption.
    rewrite fdiv_Fin by lra. do 2 f_equal. unfold Rdiv. ring.
  - intros Hp01. rewrite (shared_weight11_entry _ _ _ _ _ _ Hp Hp01 Hfin Hx).
    cbn [fmul]. do 2 f_equal. ring.
Qed.

(** * Scores of the transformed rows *)

(** ** Rows, entry by entry *)

Lemma map2_Fins (g : float -> float -> float) (g' : R -> R -> R)
    (xs ys : list R) :
  (forall x y, In y ys -> g (Fin x) (Fin y) = Fin (g' x y)) ->
  map2 g (Fins xs) (Fins ys) = Fins (map2 g' xs ys).
Proof.
  revert ys. induction xs as [|x xs IH]; intros [|y ys] Hg; try reflexivity.
  cbn [Fins map map2]. f_equal.
  - apply Hg. now left.
  - apply IH. intros a b Hb. apply Hg. now right.
Qed.

Lemma length_map2 {A B C : Type} (f : A -> B -> C) (l : list A)
    (l' : list B) :
  length (map2 f l l') = Nat.min (length l) (length l').
Proof.
  revert l'. induction l as [|a l IH]; intros [|b l']; simpl; auto.
Qed.

Lemma dot_Fins (xs ys : list R) : dot (Fins xs) (Fins ys) = Fin (Rdot xs ys).
Proof.
  unfold dot, Rdot. rewrite (map2_Fins fmul Rmult) by reflexivity.
  apply fsum_Fins.
Qed.

Lemma nth_error_Fins (xs : list R) (j : nat) :
  nth_error (Fins xs) j = option_map Fin (nth_error xs j).
Proof. apply nth_error_map. Qed.

(** The array of a sparse row whose stored entries were multiplied by the
    factors [w] of their columns. *)
Lemma toarray_row_scaled (m : nat) (r : sprow) (w : nat -> float)
    (v xs : list R) :
  Forall (fun e => finite (snd e)) r ->
  toarray_row m r = Fins xs ->
  length v = m ->
  (forall j c, nth_error v j = Some c -> w j = Fin c) ->
  toarray_row m (map (fun e => (fst e, fmul (snd e) (w (fst e)))) r)
  = Fins (map2 Rmult xs v).
Proof.
  intros Hfin Hrow Hlen Hw. apply nth_error_ext. intros j.
  pose proof (f_equal (fun l => nth_error l j) Hrow) as Hj. cbv beta in Hj.
  rewrite nth_error_toarray_row, nth_error_Fins in Hj.
  rewrite nth_error_toarray_row, nth_error_Fins, nth_error_map2.
  destruct (Nat.ltb_spec j m) as [Hlt|Hge].
  - destruct (nth_error xs j) as [a|]; [|discriminate].
    injection Hj as Hj.
    destruct (nth_error v j) as [c|] eqn:Hc.
    + destruct (entry_at_scaled w j c r (Hw j c Hc) Hfin) as [a' [Ha Ha']].
      rewrite Ha'. rewrite Ha in Hj. injection Hj as ->. reflexivity.
    + apply nth_error_None in Hc. lia.
  - destruct (nth_error xs j); [discriminate | reflexivity].
Qed.

Lemma sparse_row_of_array (f : spformat) (m : nat) (rows : list sprow)
    (i : nat) (xs : list R) :
  nth_error (toarray (Sparse f m rows)) i = Some (Fins xs) ->
  exists r, nth_error rows i = Some r /\ toarray_row m r = Fins xs.
Proof.
  cbn [toarray]. rewrite nth_error_map.
  destruct (nth_error rows i) as [r|]; [|discriminate].
  intros [= H]. now exists r.
Qed.

Lemma finite_sparse_row (f : spformat) (m : nat) (rows : list sprow)
    (i : nat) (r : sprow) :
  finite_matrix (Sparse f m rows) ->
  nth_error rows i = Some r ->
  Forall (fun e => finite (snd e)) r.
Proof.
  intros Hfin Hr. simpl in Hfin. rewrite Forall_forall in Hfin.
  apply Hfin. eapply nth_error_In, Hr.
Qed.

Lemma length_toarray_row (m : nat) (r : sprow) : length (toarray_row m r) = m.
Proof. unfold toarray_row. now rewrite length_map, length_seq. Qed.

(** A row under [multiply]: every entry times the factor of its column. *)
Lemma row_multiply (adj : matrix) (v : list R) (i : nat) (xs : list R) :
  length v = shape1 adj ->
  finite_matrix adj ->
  nth_error (toarray adj) i = Some (Fins xs) ->
  nth_error (toarray (multiply adj (Fins v))) i
  = Some (Fins (map2 Rmult xs v)).
Proof.
  intros Hlen Hfin Hi. destruct adj as [m rows | f m rows]; cbn [multiply].
  - cbn [toarray] in *. rewrite nth_error_map, Hi. cbn [option_map].
    f_equal. now apply map2_Fins.
  - destruct (sparse_row_of_array _ _ _ _ _ Hi) as [r [Hr Hrow]].
    cbn [toarray]. rewrite !nth_error_map, Hr. cbn [option_map]. f_equal.
    apply (toarray_row_scaled m r (fun k => nth k (Fins v) NaN));
      try assumption.
    + eapply finite_sparse_row; eassumption.
    + intros j c Hc. apply nth_error_nth. rewrite nth_error_Fins, Hc.
      reflexivity.
Qed.

Lemma toarray_tocsr (adj : matrix) : toarray (tocsr adj) = toarray adj.
Proof. destruct adj; reflexivity. Qed.

Lemma map_inverse_Fins (ds : list R) :
  Forall (fun d => 0 < d) ds ->
  map (fdiv (Fin 1)) (Fins ds) = Fins (map (fun d => 1 / d) ds).
Proof.
  intros Hd. unfold Fins. rewrite !map_map. apply map_ext_in.
  intros d Hin. rewrite Forall_forall in Hd. specialize (Hd d Hin).
  apply fdiv_Fin. lra.
Qed.

Lemma map2_mult_inverse (xs ds : list R) :
  map2 Rmult xs (map (fun d => 1 / d) ds) = map2 Rdiv xs ds.
Proof.
  revert ds. induction xs as [|x xs IH]; intros [|d ds]; try reflexivity.
  cbn [map map2]. rewrite IH. f_equal. unfold Rdiv. ring.
Qed.

(** A row under "multiply by 1/d when sparse, divide by d otherwise". *)
Lemma row_scaled_by_divisors (adj : matrix) (ds : list R) (make_dense : bool)
    (i : nat) (xs : list R) :
  Forall (fun d => 0 < d) ds ->
  length ds = shape1 adj ->
  finite_matrix adj ->
  nth_error (toarray adj) i = Some (Fins xs) ->
  nth_error
    (toarray (if isspmatrix adj && negb make_dense
              then tocsr (multiply adj (map (fdiv (Fin 1)) (Fins ds)))
              else divide adj (Fins ds))) i
  = Some (Fins (map2 Rdiv xs ds)).
Proof.
  intros Hd Hlen Hfin Hi. destruct (isspmatrix adj && negb make_dense).
  - rewrite toarray_tocsr, (map_inverse_Fins ds Hd).
    rewrite (row_multiply adj (map (fun d => 1 / d) ds) i xs);
      [now rewrite map2_mult_inverse | now rewrite length_map | assumption
      | assumption].
  - unfold divide. cbn [toarray]. rewrite nth_error_map, Hi.
    cbn [option_map]. f_equal. apply map2_Fins.
    intros x y Hy. rewrite Forall_forall in Hd. specialize (Hd y Hy).
    apply fdiv_Fin. lra.
Qed.

(** ** Sums over three rows *)

Lemma Rsum3_ext (f g : R -> R -> R -> R) (xs ys ps : list R) :
  (forall x y p, In p ps -> f x y p = g x y p) ->
  Rsum3 f xs ys ps = Rsum3 g xs ys ps.
Proof.
  revert ys ps. induction xs as [|x xs IH]; intros [|y ys] [|p ps] H;
    try reflexivity.
  cbn [Rsum3]. rewrite (H x y p) by now left. f_equal.
  apply IH. intros a b c Hc. apply H. now right.
Qed.

Lemma Rdot_map2 (g : R -> R -> R) (xs ys ps : list R) :
  Rdot (map2 g xs ps) (map2 g ys ps)
  = Rsum3 (fun x y p => g x p * g y p) xs ys ps.
Proof.
  unfold Rdot. revert ys ps.
  induction xs as [|x xs IH]; intros [|y ys] [|p ps]; try reflexivity.
  cbn [map2 Rsum3]. rewrite Rsum_cons, IH. reflexivity.
Qed.

Lemma map2_map_r {A B C D : Type} (f : A -> C -> D) (d : B -> C)
    (xs : list A) (ps : list B) :
  map2 f xs (map d ps) = map2 (fun x p => f x (d p)) xs ps.
Proof.
  revert ps. induction xs as [|x xs IH]; intros [|p ps]; try reflexivity.
  cbn [map map2]. now rewrite IH.
Qed.

Lemma dot_product_scorer_rows (M : matrix) (i k : nat) (u v : vector) :
  nth_error (toarray M) i = Some u ->
  nth_error (toarray M) k = Some v ->
  dot_product_scorer M i k = dot u v.
Proof.
  intros Hi Hk. unfold dot_product_scorer.
  now rewrite (nth_error_nth _ _ _ Hi), (nth_error_nth _ _ _ Hk).
Qed.

(** ** Newman and Adamic-Adar *)

Lemma newman_divisor_Fins (num_docs : Z) (ps : list R) :
  newman_divisor num_docs (Fins ps)
  = Fins (map (fun p => sqrt (Rmax (IZR num_docs * p) 2 - 1)) ps).
Proof.
  unfold newman_divisor, affil_counts, Fins. rewrite !map_map.
  apply map_ext. intros p. cbn [fmul fmaximum fsub].
  apply fsqrt_Fin. pose proof (affil_count_ge_2 (IZR num_docs) p). lra.
Qed.

Lemma adamic_adar_divisor_Fins (num_docs : Z) (ps : list R) :
  adamic_adar_divisor num_docs (Fins ps)
  = Fins (map (fun p => sqrt (ln (Rmax (IZR num_docs * p) 2))) ps).
Proof.
  unfold adamic_adar_divisor, affil_counts, Fins. rewrite !map_map.
  apply map_ext. intros p. cbn [fmul fmaximum].
  pose proof (ln_ge_2_pos _ (affil_count_ge_2 (IZR num_docs) p)).
  pose proof (affil_count_ge_2 (IZR num_docs) p).
  rewrite flog_Fin, fsqrt_Fin by lra. reflexivity.
Qed.

Lemma Forall_map_pos (d : R -> R) (ps : list R) :
  (forall p, 0 < d p) -> Forall (fun x => 0 < x) (map d ps).
Proof. intros H. apply Forall_map, Forall_forall. intros p _. apply H. Qed.

(** X1.  The score that [newman_transform] yields for two items is the
    Newman score: the sum over the columns of x * y / (count - 1), with
    count = max(num_docs * p, 2), for sparse and dense input alike. *)
Theorem newman_score (adj : matrix) (ps xs ys : list R) (num_docs : Z)
    (make_dense : bool) (i k : nat) :
  length ps = shape1 adj ->
  finite_matrix adj ->
  nth_error (toarray adj) i = Some (Fins xs) ->
  nth_error (toarray adj) k = Some (Fins ys) ->
  dot_product_scorer (newman_transform adj (Fins ps) num_docs make_dense) i k
  = Fin (Rsum3 (fun x y p => x * y / (Rmax (IZR num_docs * p) 2 - 1))
               xs ys ps).
Proof.
  intros Hlen Hfin Hi Hk. unfold newman_transform.
  rewrite newman_divisor_Fins.
  set (d := fun p => sqrt (Rmax (IZR num_docs * p) 2 - 1)).
  assert (Hd : forall p, 0 < d p).
  { intros p. apply sqrt_lt_R0.
    pose proof (affil_count_ge_2 (IZR num_docs) p). lra. }
  assert (Hlen' : length (map d ps) = shape1 adj) by now rewrite length_map.
  pose proof (row_scaled_by_divisors adj (map d ps) make_dense i xs
                (Forall_map_pos d ps Hd) Hlen' Hfin Hi) as Ri.
  pose proof (row_scaled_by_divisors adj (map d ps) make_dense k ys
                (Forall_map_pos d ps Hd) Hlen' Hfin Hk) as Rk.
  rewrite (dot_product_scorer_rows _ _ _ _ _ Ri Rk), dot_Fins.
  rewrite !map2_map_r, Rdot_map2. f_equal. apply Rsum3_ext.
  intros x y p _. specialize (Hd p). unfold d in *.
  assert (Hs : sqrt (Rmax (IZR num_docs * p) 2 - 1)
               * sqrt (Rmax (IZR num_docs * p) 2 - 1)
               = Rmax (IZR num_docs * p) 2 - 1).
  { apply sqrt_sqrt. pose proof (affil_count_ge_2 (IZR num_docs) p). lra. }
  rewrite <- Hs at 3. field. lra.
Qed.

Lemma newman_score_witness :
  dot_product_scorer
    (newman_transform example_sparse (Fins [1 / 2; 1 / 4; 1 / 4; 1 / 4]) 4
       false) 0 1
  = Fin (Rsum3 (fun x y p => x * y / (Rmax (IZR 4 * p) 2 - 1))
               [1 + 0; 1 + 0; 0; 0] [1 + 0; 0; 1 + 0; 0]
               [1 / 2; 1 / 4; 1 / 4; 1 / 4]).
Proof.
  apply (newman_score example_sparse).
  - reflexivity.
  - repeat constructor.
  - reflexivity.
  - reflexivity.
Defined.

(** X2.  The score that [adamic_adar_transform] yields for two items is
    the Adamic-Adar score: the sum over the columns of x * y / log(count),
    with count = max(num_docs * p, 2), for sparse and dense input alike. *)
Theorem adamic_adar_score (adj : matrix) (ps xs ys : list R) (num_docs : Z)
    (make_dense : bool) (i k : nat) :
  length ps = shape1 adj ->
  finite_matrix adj ->
  nth_error (toarray adj) i = Some (Fins xs) ->
  nth_error (toarray adj) k = Some (Fins ys) ->
  dot_product_scorer
    (adamic_adar_transform adj (Fins ps) num_docs make_dense) i k
  = Fin (Rsum3 (fun x y p => x * y / ln (Rmax (IZR num_docs * p) 2))
               xs ys ps).
Proof.
  intros Hlen Hfin Hi Hk. unfold adamic_adar_transform.
  rewrite adamic_adar_divisor_Fins.
  set (d := fun p => sqrt (ln (Rmax (IZR num_docs * p) 2))).
  assert (Hln : forall p, 0 < ln (Rmax (IZR num_docs * p) 2)).
  { intros p. apply ln_ge_2_pos, affil_count_ge_2. }
  assert (Hd : forall p, 0 < d p).
  { intros p. apply sqrt_lt_R0, Hln. }
  assert (Hlen' : length (map d ps) = shape1 adj) by now rewrite length_map.
  pose proof (row_scaled_by_divisors adj (map d ps) make_dense i xs
                (Forall_map_pos d ps Hd) Hlen' Hfin Hi) as Ri.
  pose proof (row_scaled_by_divisors adj (map d ps) make_dense k ys
                (Forall_map_pos d ps Hd) Hlen' Hfin Hk) as Rk.
  rewrite (dot_product_scorer_rows _ _ _ _ _ Ri Rk), dot_Fins.
  rewrite !map2_map_r, Rdot_map2. f_equal. apply Rsum3_ext.
  intros x y p _. specialize (Hd p). specialize (Hln p). unfold d in *.
  assert (Hs : sqrt (ln (Rmax (IZR num_docs * p) 2))
               * sqrt (ln (Rmax (IZR num_docs * p) 2))
               = ln (Rmax (IZR num_docs * p) 2)).
  { apply sqrt_sqrt. lra. }
  rewrite <- Hs at 3. field. lra.
Qed.

Lemma adamic_adar_score_witness :
  dot_product_scorer
    (adamic_adar_transform example_dense (Fins [1 / 2; 1 / 4; 1 / 4; 1 / 4])
       4 false) 0 1
  = Fin (Rsum3 (fun x y p => x * y / ln (Rmax (IZR 4 * p) 2))
               [1; 1; 0; 0] [1; 0; 1; 0] [1 / 2; 1 / 4; 1 / 4; 1 / 4]).
Proof.
  apply (adamic_adar_score example_dense).
  - reflexivity.
  - repeat constructor.
  - reflexivity.
  - reflexivity.
Defined.

Lemma contribution_scaled_by_divisor (adj : matrix) (ds : vector)
    (make_dense : bool) (i k j : nat) (x y d : R) :
  0 < d ->
  nth_error ds j = Some (Fin d) ->
  finite_matrix adj ->
  entry adj i j = Some (Fin x) ->
  entry adj k j = Some (Fin y) ->
  contribution (if isspmatrix adj && negb make_dense
                then tocsr (multiply adj (map (fdiv (Fin 1)) ds))
                else divide adj ds) j i k
  = Some (Fin (x / d * (y / d))).
Proof.
  intros Hd Hds Hfin Hx Hy. unfold contribution.
  rewrite (entry_scaled_by_divisor adj ds make_dense i j (Fin x) d Hd Hds
             Hfin Hx).
  rewrite (entry_scaled_by_divisor adj ds make_dense k j (Fin y) d Hd Hds
             Hfin Hy).
  rewrite !fdiv_Fin by lra. reflexivity.
Qed.

Lemma ln_2_lt_1 : ln 2 < 1.
Proof.
  rewrite <- (ln_exp 1). apply ln_increasing; [lra|].
  pose proof (exp_ineq1 1). lra.
Qed.

(** X3.  On a 0/1 matrix the term that a column adds to a Newman score
    lies in [0, 1], whatever the popularity and [num_docs]: the floor of
    the count at 2 keeps the divisor count - 1 at 1 or more. *)
Theorem newman_term_in_unit_interval (adj : matrix) (pi_vector : vector)
    (num_docs : Z) (make_dense : bool) (i k j : nat) (p x y : R) :
  nth_error pi_vector j = Some (Fin p) ->
  finite_matrix adj ->
  entry adj i j = Some (Fin x) ->
  entry adj k j = Some (Fin y) ->
  x = 0 \/ x = 1 ->
  y = 0 \/ y = 1 ->
  exists t,
    contribution (newman_transform adj pi_vector num_docs make_dense) j i k
    = Some (Fin t)
    /\ t = x * y / (Rmax (IZR num_docs * p) 2 - 1)
    /\ 0 <= t <= 1.
Proof.
  intros Hp Hfin Hx Hy Hx01 Hy01.
  pose proof (affil_count_ge_2 (IZR num_docs) p) as Hc.
  set (c := Rmax (IZR num_docs * p) 2) in *.
  assert (Hd : 0 < sqrt (c - 1)) by (apply sqrt_lt_R0; lra).
  assert (Hs : sqrt (c - 1) * sqrt (c - 1) = c - 1)
    by (apply sqrt_sqrt; lra).
  exists (x / sqrt (c - 1) * (y / sqrt (c - 1))).
  split; [|split].
  - unfold newman_transform.
    apply contribution_scaled_by_divisor; try assumption.
    now apply nth_error_newman_divisor.
  - rewrite <- Hs at 3. field. lra.
  - replace (x / sqrt (c - 1) * (y / sqrt (c - 1))) with (x * y / (c - 1))
      by (rewrite <- Hs at 1; field; lra).
    assert (H1 : 0 < / (c - 1) <= 1).
    { split; [apply Rinv_0_lt_compat; lra|].
      rewrite <- Rinv_1. apply Rinv_le_contravar; lra. }
    unfold Rdiv. destruct Hx01 as [-> | ->], Hy01 as [-> | ->]; lra.
Qed.

Lemma newman_term_in_unit_interval_witness :
  exists t,
    contribution
      (newman_transform example_sparse
         [Fin (1 / 2); Fin (1 / 4); Fin (1 / 4); Fin (1 / 4)] 4 false) 0 0 1
    = Some (Fin t)
    /\ t = (1 + 0) * (1 + 0) / (Rmax (IZR 4 * (1 / 2)) 2 - 1)
    /\ 0 <= t <= 1.
Proof.
  apply (newman_term_in_unit_interval example_sparse
           [Fin (1 / 2); Fin (1 / 4); Fin (1 / 4); Fin (1 / 4)] 4 false
           0 1 0 (1 / 2) (1 + 0) (1 + 0)).
  - reflexivity.
  - repeat constructor.
  - reflexivity.
  - reflexivity.
  - right. lra.
  - right. lra.
Defined.

(** X4.  On a 0/1 matrix the term that a column adds to an Adamic-Adar
    score lies in [0, 1 / log 2].  At the floor of the count (num_docs * p
    up to 2) an affiliation shared by the two items adds 1 / log 2, which
    is more than 1: the natural logarithm of 2 is less than 1. *)
Theorem adamic_adar_term_bounds (adj : matrix) (pi_vector : vector)
    (num_docs : Z) (make_dense : bool) (i k j : nat) (p x y : R) :
  nth_error pi_vector j = Some (Fin p) ->
  finite_matrix adj ->
  entry adj i j = Some (Fin x) ->
  entry adj k j = Some (Fin y) ->
  x = 0 \/ x = 1 ->
  y = 0 \/ y = 1 ->
  exists t,
    contribution
      (adamic_adar_transform adj pi_vector num_docs make_dense) j i k
    = Some (Fin t)
    /\ t = x * y / ln (Rmax (IZR num_docs * p) 2)
    /\ 0 <= t <= 1 / ln 2
    /\ (x = 1 -> y = 1 -> IZR num_docs * p <= 2 -> t = 1 / ln 2 /\ 1 < t).
Proof.
  intros Hp Hfin Hx Hy Hx01 Hy01.
  pose proof (affil_count_ge_2 (IZR num_docs) p) as Hc.
  set (c := Rmax (IZR num_docs * p) 2) in *.
  pose proof (ln_ge_2_pos c Hc) as Hln.
  assert (Hd : 0 < sqrt (ln c)) by (apply sqrt_lt_R0; lra).
  assert (Hs : sqrt (ln c) * sqrt (ln c) = ln c) by (apply sqrt_sqrt; lra).
  assert (Hl2 : 0 < ln 2) by (apply ln_ge_2_pos; lra).
  assert (Hmono : ln 2 <= ln c).
  { destruct Hc as [Hlt | <-]; [left; apply ln_increasing; lra | lra]. }
  assert (Ht : x / sqrt (ln c) * (y / sqrt (ln c)) = x * y / ln c)
    by (rewrite <- Hs at 3; field; lra).
  exists (x / sqrt (ln c) * (y / sqrt (ln c))).
  split; [|split; [exact Ht|split]].
  - unfold adamic_adar_transform.
    apply contribution_scaled_by_divisor; try assumption.
    now apply nth_error_adamic_adar_divisor.
  - rewrite Ht.
    assert (H1 : 0 < / ln c <= / ln 2).
    { split; [apply Rinv_0_lt_compat; lra|].
      apply Rinv_le_contravar; lra. }
    unfold Rdiv. rewrite Rmult_1_l.
    destruct Hx01 as [-> | ->], Hy01 as [-> | ->]; lra.
  - intros -> -> Hfloor. rewrite Ht.
    assert (Hc2 : c = 2) by (unfold c; apply Rmax_right; lra).
    rewrite Hc2, Rmult_1_l. split; [reflexivity|].
    pose proof ln_2_lt_1.
    apply Rmult_lt_reg_r with (ln 2); [assumption|].
    unfold Rdiv. rewrite Rmult_assoc, Rinv_l by lra. lra.
Qed.

Lemma adamic_adar_term_bounds_witness :
  exists t,
    contribution
      (adamic_adar_transform example_dense
         [Fin (1 / 2); Fin (1 / 4); Fin (1 / 4); Fin (1 / 4)] 4 false) 0 0 1
    = Some (Fin t)
    /\ t = 1 / ln 2 /\ 1 < t.
Proof.
  assert (Hfin : finite_matrix example_dense) by repeat constructor.
  destruct (adamic_adar_term_bounds example_dense
              [Fin (1 / 2); Fin (1 / 4); Fin (1 / 4); Fin (1 / 4)] 4 false
              0 1 0 (1 / 2) 1 1 eq_refl Hfin eq_refl eq_refl
              (or_intror eq_refl) (or_intror eq_refl))
    as (t & Ht & _ & _ & Hfloor).
  exists t. split; [exact Ht|]. apply Hfloor; [reflexivity | reflexivity|].
  lra.
Defined.

(** ** Shared weight (1,1) and shared size *)

Lemma weight11_Fins (ps : list R) :
  Forall (fun p => 0 < p <= 1) ps ->
  weight11 (Fins ps) = Fins (map (fun p => sqrt (ln (1 / p))) ps).
Proof.
  intros Hps. unfold weight11, Fins. rewrite !map_map. apply map_ext_in.
  intros p Hin. rewrite Forall_forall in Hps. specialize (Hps p Hin).
  assert (0 < 1 / p) by (apply Rdiv_lt_0_compat; lra).
  rewrite fdiv_Fin, flog_Fin, fsqrt_Fin by (try apply ln_inv_nonneg; lra).
  reflexivity.
Qed.

(** X5.  The score that [shared_weight11_transform] yields for two items
    is the sum over the columns of x * y * log(1/p), for popularities
    0 < p <= 1: an affiliation that two items of a 0/1 matrix share weighs
    log(1/p).  Sparse and dense input give the same score. *)
Theorem shared_weight11_score (adj : matrix) (ps xs ys : list R) (i k : nat) :
  length ps = shape1 adj ->
  Forall (fun p => 0 < p <= 1) ps ->
  finite_matrix adj ->
  nth_error (toarray adj) i = Some (Fins xs) ->
  nth_error (toarray adj) k = Some (Fins ys) ->
  dot_product_scorer (shared_weight11_transform adj (Fins ps)) i k
  = Fin (Rsum3 (fun x y p => x * y * ln (1 / p)) xs ys ps).
Proof.
  intros Hlen Hps Hfin Hi Hk.
  assert (Hrow : forall n zs,
             nth_error (toarray adj) n = Some (Fins zs) ->
             nth_error (toarray (shared_weight11_transform adj (Fins ps))) n
             = Some (Fins (map2 Rmult zs
                             (map (fun p => sqrt (ln (1 / p))) ps)))).
  { intros n zs Hn. unfold shared_weight11_transform.
    rewrite (weight11_Fins ps Hps).
    destruct (isspmatrix adj); [rewrite toarray_tocsr|];
      apply row_multiply; try assumption; now rewrite length_map. }
  rewrite (dot_product_scorer_rows _ _ _ _ _ (Hrow i xs Hi) (Hrow k ys Hk)).
  rewrite dot_Fins, !map2_map_r, Rdot_map2. f_equal. apply Rsum3_ext.
  intros x y p Hin. rewrite Forall_forall in Hps. specialize (Hps p Hin).
  pose proof (sqrt_sqrt _ (ln_inv_nonneg p Hps)) as Hs.
  rewrite <- Hs at 3. ring.
Qed.

Lemma shared_weight11_score_witness :
  dot_product_scorer
    (shared_weight11_transform example_sparse
       (Fins [1 / 2; 1 / 4; 1 / 4; 1])) 0 1
  = Fin (Rsum3 (fun x y p => x * y * ln (1 / p))
               [1 + 0; 1 + 0; 0; 0] [1 + 0; 0; 1 + 0; 0]
               [1 / 2; 1 / 4; 1 / 4; 1]).
Proof.
  apply (shared_weight11_score example_sparse).
  - reflexivity.
  - repeat constructor; lra.
  - repeat constructor.
  - reflexivity.
  - reflexivity.
Defined.

Lemma map2_repeat_r (c : R) (m : nat) (xs : list R) :
  (length xs <= m)%nat ->
  map2 Rmult xs (repeat c m) = map (fun x => x * c) xs.
Proof.
  revert m. induction xs as [|x xs IH]; intros [|m] Hlen; try reflexivity.
  - simpl in Hlen. lia.
  - cbn [repeat map2 map]. rewrite IH by (simpl in Hlen; lia). reflexivity.
Qed.

Lemma Rdot_map_div (c : R) (xs ys : list R) :
  Rdot (map (fun x => x / c) xs) (map (fun x => x / c) ys)
  = Rdot xs ys / (c * c).
Proof.
  unfold Rdot. revert ys. induction xs as [|x xs IH]; intros [|y ys];
    try (unfold Rsum, Rdiv; simpl; ring).
  cbn [map map2]. rewrite !Rsum_cons, IH.
  destruct (Req_dec_T c 0) as [-> | Hc]; [|field; assumption].
  unfold Rdiv. rewrite Rmult_0_l, Rinv_0. ring.
Qed.

Lemma shared_size_row (adj : matrix) (make_dense : bool) (i : nat)
    (xs : list R) :
  (0 < shape1 adj)%nat ->
  finite_matrix adj ->
  nth_error (toarray adj) i = Some (Fins xs) ->
  nth_error (toarray (shared_size_transform adj false make_dense)) i
  = Some (Fins (map (fun x => x / sqrt (INR (shape1 adj))) xs)).
Proof.
  intros Hm Hfin Hi. unfold shared_size_transform.
  pose proof (sqrt_INR_pos _ Hm) as Hs. rewrite fsqrt_INR.
  destruct adj as [m rows | f m rows].
  - cbn [isspmatrix andb divide_scalar toarray shape1] in *.
    rewrite nth_error_map, Hi. cbn [option_map]. f_equal.
    apply map_Fins. intros x. apply fdiv_Fin. lra.
  - cbn [shape1] in *. rewrite fdiv_Fin by lra.
    destruct (sparse_row_of_array _ _ _ _ _ Hi) as [r [Hr Hrow]].
    assert (Hgoal : nth_error
              (toarray (Sparse f m
                 (map (sprow_scale (Fin (1 / sqrt (INR m)))) rows))) i
            = Some (Fins (map (fun x => x / sqrt (INR m)) xs))).
    { cbn [toarray]. rewrite !nth_error_map, Hr. cbn [option_map]. f_equal.
      unfold sprow_scale.
      rewrite (toarray_row_scaled m r (fun _ => Fin (1 / sqrt (INR m)))
                 (repeat (1 / sqrt (INR m)) m) xs).
      - rewrite map2_repeat_r.
        + f_equal. apply map_ext. intros x. unfold Rdiv. ring.
        + rewrite <- (length_toarray_row m r), Hrow, length_Fins. lia.
      - eapply finite_sparse_row; eassumption.
      - assumption.
      - apply repeat_length.
      - intros j c Hc. apply nth_error_In, repeat_spec in Hc. now subst c. }
    destruct make_dense; cbn [isspmatrix andb negb divide_scalar multiply_scalar];
      rewrite ?fdiv_Fin by lra; exact Hgoal.
Qed.

(** X6.  Outside back-compatible mode the score that
    [shared_size_transform] yields for two items is their inner product
    divided by the number of columns m: the mean, over the columns, of
    x * y.  Sparse and dense input give the same score. *)
Theorem shared_size_score (adj : matrix) (make_dense : bool) (xs ys : list R)
    (i k : nat) :
  (0 < shape1 adj)%nat ->
  finite_matrix adj ->
  nth_error (toarray adj) i = Some (Fins xs) ->
  nth_error (toarray adj) k = Some (Fins ys) ->
  dot_product_scorer (shared_size_transform adj false make_dense) i k
  = Fin (Rdot xs ys / INR (shape1 adj)).
Proof.
  intros Hm Hfin Hi Hk.
  rewrite (dot_product_scorer_rows _ _ _ _ _
             (shared_size_row adj make_dense i xs Hm Hfin Hi)
             (shared_size_row adj make_dense k ys Hm Hfin Hk)).
  rewrite dot_Fins, Rdot_map_div, sqrt_sqrt by apply pos_INR. reflexivity.
Qed.

Lemma shared_size_score_witness :
  dot_product_scorer (shared_size_transform example_sparse false false) 0 1
  = Fin (Rdot [1 + 0; 1 + 0; 0; 0] [1 + 0; 0; 1 + 0; 0]
         / INR (shape1 example_sparse)).
Proof.
  apply (shared_size_score example_sparse).
  - simpl. lia.
  - repeat constructor.
  - reflexivity.
  - reflexivity.
Defined.

(** ** Weighted correlation, row by row *)

Lemma handle_01_Fin (p : R) : handle_01 (Fin p) = Fin (Rhandle_01 p).
Proof.
  unfold handle_01, Rhandle_01, feqb.
  destruct (Req_dec_T p 0) as [H0|H0].
  - destruct (Req_dec_T (1 / 2) 1); [lra | reflexivity].
  - destruct (Req_dec_T p 1); reflexivity.
Qed.

Lemma Rhandle_01_range (p : R) :
  0 <= p <= 1 -> 0 < Rhandle_01 p < 1.
Proof.
  intros Hp. unfold Rhandle_01.
  destruct (Req_dec_T p 0); [lra|]. destruct (Req_dec_T p 1); lra.
Qed.

Lemma Rhandle_01_regular (p : R) : 0 < p < 1 -> Rhandle_01 p = p.
Proof.
  intros Hp. unfold Rhandle_01.
  destruct (Req_dec_T p 0); [lra|]. destruct (Req_dec_T p 1); [lra|].
  reflexivity.
Qed.

(** The variance under the square root of the denominator. *)
Lemma wc_variance_pos (m : nat) (p : R) :
  (0 < m)%nat -> 0 <= p <= 1 ->
  0 < Rhandle_01 p * (1 - Rhandle_01 p) * INR m.
Proof.
  intros Hm Hp. pose proof (Rhandle_01_range p Hp).
  pose proof (lt_0_INR m Hm).
  apply Rmult_lt_0_compat; [apply Rmult_lt_0_compat|]; lra.
Qed.

Lemma wc_denominator_Fins (m : nat) (ps : list R) :
  (0 < m)%nat ->
  Forall (fun p => 0 <= p <= 1) ps ->
  wc_denominator m (Fins ps)
  = Fins (map (fun p => sqrt (Rhandle_01 p * (1 - Rhandle_01 p) * INR m)) ps).
Proof.
  intros Hm Hps. unfold wc_denominator, Fins. rewrite !map_map.
  apply map_ext_in. intros p Hin. rewrite Forall_forall in Hps.
  pose proof (wc_variance_pos m p Hm (Hps p Hin)).
  rewrite handle_01_Fin. cbn [fsub fmul]. apply fsqrt_Fin. lra.
Qed.

Lemma map2_div_minus (d : R -> R) (xs ps : list R) :
  map2 Rdiv (map2 Rminus xs ps) (map d ps)
  = map2 (fun x p => (x - p) / d p) xs ps.
Proof.
  revert ps. induction xs as [|x xs IH]; intros [|p ps]; try reflexivity.
  cbn [map map2]. now rewrite IH.
Qed.

Lemma wc_row (adj : matrix) (ps : list R) (i : nat) (xs : list R) :
  (0 < shape1 adj)%nat ->
  Forall (fun p => 0 <= p <= 1) ps ->
  nth_error (toarray adj) i = Some (Fins xs) ->
  nth_error (toarray (wc_transform adj (Fins ps))) i
  = Some (Fins (map2 (fun x p =>
                        (x - p)
                        / sqrt (Rhandle_01 p * (1 - Rhandle_01 p)
                                * INR (shape1 adj)))
                     xs ps)).
Proof.
  intros Hm Hps Hi. unfold wc_transform. cbn [toarray].
  rewrite nth_error_map, Hi. cbn [option_map]. f_equal.
  rewrite (wc_denominator_Fins _ ps Hm Hps).
  rewrite (map2_Fins fsub Rminus) by reflexivity.
  rewrite (map2_Fins fdiv Rdiv).
  - now rewrite map2_div_minus.
  - intros x d Hd. apply in_map_iff in Hd. destruct Hd as [p [<- Hin]].
    rewrite Forall_forall in Hps.
    pose proof (wc_variance_pos _ p Hm (Hps p Hin)) as Hv.
    apply fdiv_Fin. apply sqrt_lt_R0 in Hv. lra.
Qed.

(** X7.  The score that [wc_transform] yields for two items is the mean,
    over the m columns, of the standardized products
    (x - p) * (y - p) / (p' * (1 - p')), where p' is the popularity p, or
    0.5 when p is 0 or 1.  It holds for all popularities in [0, 1], for
    sparse and dense input. *)
Theorem wc_score (adj : matrix) (ps xs ys : list R) (i k : nat) :
  (0 < shape1 adj)%nat ->
  Forall (fun p => 0 <= p <= 1) ps ->
  nth_error (toarray adj) i = Some (Fins xs) ->
  nth_error (toarray adj) k = Some (Fins ys) ->
  dot_product_scorer (wc_transform adj (Fins ps)) i k
  = Fin (Rsum3 (fun x y p =>
                  (x - p) * (y - p)
                  / (Rhandle_01 p * (1 - Rhandle_01 p))
                  / INR (shape1 adj))
               xs ys ps).
Proof.
  intros Hm Hps Hi Hk.
  rewrite (dot_product_scorer_rows _ _ _ _ _
             (wc_row adj ps i xs Hm Hps Hi) (wc_row adj ps k ys Hm Hps Hk)).
  rewrite dot_Fins, Rdot_map2. f_equal. apply Rsum3_ext.
  intros x y p Hin. rewrite Forall_forall in Hps.
  pose proof (Rhandle_01_range p (Hps p Hin)) as Hh.
  pose proof (lt_0_INR _ Hm) as Hn.
  pose proof (wc_variance_pos _ p Hm (Hps p Hin)) as Hv.
  pose proof (sqrt_lt_R0 _ Hv) as Hsq.
  pose proof (sqrt_sqrt _ (Rlt_le _ _ Hv)) as Hs.
  set (s := sqrt (Rhandle_01 p * (1 - Rhandle_01 p) * INR (shape1 adj))) in *.
  replace ((x - p) * (y - p) / (Rhandle_01 p * (1 - Rhandle_01 p))
           / INR (shape1 adj))
    with ((x - p) * (y - p) / (s * s)) by (rewrite Hs; field; lra).
  field. lra.
Qed.

Lemma wc_score_witness :
  dot_product_scorer
    (wc_transform example_sparse (Fins [2 / 3; 1 / 3; 1 / 3; 1 / 3])) 0 1
  = Fin (Rsum3 (fun x y p =>
                  (x - p) * (y - p)
                  / (Rhandle_01 p * (1 - Rhandle_01 p))
                  / INR (shape1 example_sparse))
               [1 + 0; 1 + 0; 0; 0] [1 + 0; 0; 1 + 0; 0]
               [2 / 3; 1 / 3; 1 / 3; 1 / 3]).
Proof.
  apply (wc_score example_sparse).
  - simpl. lia.
  - repeat constructor; lra.
  - reflexivity.
  - reflexivity.
Defined.

(** ** Model-based weighted correlation *)

(** X8.  When every row of the edge-probability matrix is the popularity
    vector, [wc_exp_transform] returns what [wc_transform] returns: the
    column marginals are the special case of the model in which an edge
    probability depends on the column only. *)
Theorem wc_exp_transform_with_column_marginals (adj_matrix : matrix)
    (pi_vector : vector) :
  wc_exp_transform adj_matrix (map (fun _ => pi_vector) (toarray adj_matrix))
  = wc_transform adj_matrix pi_vector.
Proof.
  unfold wc_exp_transform, wc_transform, wc_denominator. f_equal.
  generalize (toarray adj_matrix). intros rows.
  induction rows as [|r rows IH]; [reflexivity|].
  cbn [map map2]. now rewrite IH.
Qed.

Lemma nth_error_rows2 {A B C : Type} (f : A -> B -> C) (M : list (list A))
    (N : list (list B)) (i j : nat) (a : A) (b : B) (r : list A)
    (r' : list B) :
  nth_error M i = Some r -> nth_error r j = Some a ->
  nth_error N i = Some r' -> nth_error r' j = Some b ->
  match nth_error (map2 (map2 f) M N) i with
  | Some row => nth_error row j
  | None => None
  end = Some (f a b).
Proof.
  intros HM Ha HN Hb. rewrite nth_error_map2, HM, HN.
  now rewrite nth_error_map2, Ha, Hb.
Qed.

(** X9.  [wc_exp_transform] standardizes entry by entry: an entry x with
    edge probability p in [0, 1] becomes the number
    (x - p) / sqrt(p' * (1 - p') * m), with p' = 0.5 when p is 0 or 1, so
    that no probability in [0, 1] gives NaN or Inf; an entry equal to a
    probability of 0 or 1 becomes 0. *)
Theorem wc_exp_transform_entry (adj_matrix : matrix)
    (edge_probs : list vector) (i j : nat) (row : vector) (x p : R) :
  (0 < shape1 adj_matrix)%nat ->
  entry adj_matrix i j = Some (Fin x) ->
  nth_error edge_probs i = Some row ->
  nth_error row j = Some (Fin p) ->
  0 <= p <= 1 ->
  entry (wc_exp_transform adj_matrix edge_probs) i j
  = Some (Fin ((x - p)
               / sqrt (Rhandle_01 p * (1 - Rhandle_01 p)
                       * INR (shape1 adj_matrix))))
  /\ (x = p -> entry (wc_exp_transform adj_matrix edge_probs) i j
               = Some (Fin 0)).
Proof.
  intros Hm Hx Hrow Hp Hp01.
  pose proof (wc_variance_pos _ p Hm Hp01) as Hv.
  pose proof (sqrt_lt_R0 _ Hv) as Hs.
  assert (He : entry (wc_exp_transform adj_matrix edge_probs) i j
               = Some (Fin ((x - p)
                            / sqrt (Rhandle_01 p * (1 - Rhandle_01 p)
                                    * INR (shape1 adj_matrix))))).
  { unfold wc_exp_transform. rewrite entry_Dense.
    unfold entry in Hx.
    destruct (nth_error (toarray adj_matrix) i) as [r|] eqn:Hr;
      [|discriminate].
    rewrite (nth_error_rows2 fdiv _ _ i j (Fin (x - p))
               (Fin (sqrt (Rhandle_01 p * (1 - Rhandle_01 p)
                           * INR (shape1 adj_matrix))))
               (map2 fsub r row)
               (map (fun q => fsqrt (fmul (fmul q (fsub (Fin 1) q))
                                      (Fin (INR (shape1 adj_matrix)))))
                    (map handle_01 row))).
    - rewrite fdiv_Fin by lra. reflexivity.
    - rewrite nth_error_map2, Hr, Hrow. reflexivity.
    - rewrite nth_error_map2, Hx, Hp. reflexivity.
    - rewrite !nth_error_map, Hrow. reflexivity.
    - rewrite !nth_error_map, Hp. cbn [option_map].
      rewrite handle_01_Fin. cbn [fsub fmul]. rewrite fsqrt_Fin by lra.
      reflexivity. }
  split; [exact He|]. intros ->. rewrite He. do 2 f_equal.
  unfold Rdiv. rewrite Rminus_diag. ring.
Qed.

Lemma wc_exp_transform_entry_witness :
  entry (wc_exp_transform (Dense 2 [[Fin 1; Fin 0]])
           [[Fin 1; Fin (1 / 4)]]) 0 0
  = Some (Fin 0).
Proof.
  refine (proj2 (wc_exp_transform_entry (Dense 2 [[Fin 1; Fin 0]])
                   [[Fin 1; Fin (1 / 4)]] 0 0 [Fin 1; Fin (1 / 4)] 1 1
                   _ eq_refl eq_refl eq_refl _) eq_refl).
  - simpl. lia.
  - lra.
Defined.

(** ** Cosine on arrays *)

Lemma Rdot_cons (x y : R) (xs ys : list R) :
  Rdot (x :: xs) (y :: ys) = x * y + Rdot xs ys.
Proof. reflexivity. Qed.


















(** ** Pearson *)


Lemma Rdot_map_quotients (f g : R -> R) (c c' : R) (xs ys : list R) :
  c <> 0 -> c' <> 0 ->
  Rdot (map (fun x => f x / c) xs) (map (fun y => g y / c') ys)
  = Rsum (map2 (fun x y => f x * g y) xs ys) / (c * c').
Proof.
  intros Hc Hc'. revert ys. induction xs as [|x xs IH]; intros [|y ys];
    try (unfold Rdot, Rsum, Rdiv; simpl; ring).
  cbn [map map2]. rewrite Rdot_cons, Rsum_cons, IH. field. split; assumption.
Qed.

Lemma map2_diag {A B : Type} (f : A -> A -> B) (l : list A) :
  map2 f l l = map (fun a => f a a) l.
Proof. induction l as [|a l IH]; [reflexivity|]. cbn. now rewrite IH. Qed.


Lemma Rsum_centred (xs : list R) :
  xs <> [] -> Rsum (map (fun x => x - Rmean xs) xs) = 0.
Proof.
  intros Hne. pose proof (INR_length_pos xs Hne) as Hn.
  assert (H : forall c l, Rsum (map (fun x => x - c) l)
                          = Rsum l - INR (length l) * c).
  { intros c l. induction l as [|a l IH].
    - unfold Rsum. simpl. ring.
    - cbn [map length]. rewrite !Rsum_cons, IH, S_INR. ring. }
  rewrite H. unfold Rmean. field. lra.
Qed.






(** ** Cosine of 0/1 rows *)





(** ** Instances for the sparse and dense forms *)

Lemma column_scalings_agree_witness :
  entry (newman_transform example_sparse
           [Fin (1 / 2); Fin (1 / 4); Fin (1 / 4); Fin (1 / 4)] 4 false) 0 0
  = entry (newman_transform (Dense 4 (toarray example_sparse))
             [Fin (1 / 2); Fin (1 / 4); Fin (1 / 4); Fin (1 / 4)] 4 false)
          0 0
  /\ entry (shared_weight11_transform example_sparse
              [Fin (1 / 2); Fin (1 / 4); Fin (1 / 4); Fin (1 / 4)]) 0 0
     = entry (shared_weight11_transform (Dense 4 (toarray example_sparse))
                [Fin (1 / 2); Fin (1 / 4); Fin (1 / 4); Fin (1 / 4)]) 0 0.
Proof.
  assert (Hfin : finite_matrix example_sparse) by repeat constructor.
  destruct (column_scalings_agree example_sparse
              [Fin (1 / 2); Fin (1 / 4); Fin (1 / 4); Fin (1 / 4)] 4
              false false 0 0 (Fin (1 + 0)) (1 / 2) eq_refl Hfin eq_refl)
    as (Hn & _ & _ & Hw).
  split; [exact Hn|]. apply Hw. lra.
Defined.

Lemma column_scalings_keep_zero_witness :
  entry (adamic_adar_transform example_sparse
           [Fin (1 / 2); Fin (1 / 4); Fin (1 / 4); Fin (1 / 4)] 4 false) 0 2
  = Some (Fin 0)
  /\ entry (shared_weight11_transform example_sparse
              [Fin (1 / 2); Fin (1 / 4); Fin (1 / 4); Fin (1 / 4)]) 0 2
     = Some (Fin 0).
Proof.
  assert (Hfin : finite_matrix example_sparse) by repeat constructor.
  destruct (column_scalings_keep_zero example_sparse
              [Fin (1 / 2); Fin (1 / 4); Fin (1 / 4); Fin (1 / 4)] 4
              false 0 2 (1 / 4) eq_refl Hfin eq_refl)
    as (_ & Ha & Hw).
  split; [exact Ha|]. apply Hw. lra.
Defined.

Lemma cosine_sparse_zero_row_witness :
  dot_product_scorer
    (cosine_transform (Sparse CSR 2 [[]; [(0%nat, Fin 1)]]) false) 0 1
  = Fin 0.
Proof.
  refine (proj2 (cosine_sparse_zero_row CSR 2 [[]; [(0%nat, Fin 1)]] 0 1
                   [] [(0%nat, Fin 1)] _ eq_refl eq_refl _)).
  - repeat constructor.
  - intros [|[|k]] Hk; [reflexivity | reflexivity | lia].
Defined.

Lemma cosine_dense_zero_row_score_witness :
  dot_product_scorer
    (cosine_transform (Dense 2 [[Fin 0; Fin 0]; [Fin 1; Fin 0]]) false) 0 1
  = NaN.
Proof.
  apply (cosine_dense_zero_row_score 2 [[Fin 0; Fin 0]; [Fin 1; Fin 0]]
           0 1 2 [Fin 1; Fin 0]).
  - reflexivity.
  - lia.
  - reflexivity.
  - discriminate.
Defined.

(** ** No NaN and no Inf on finite input *)

Lemma nth_error_wc_denominator_valid (m : nat) (pi_vector : vector) (j : nat)
    (p : R) :
  (0 < m)%nat ->
  nth_error pi_vector j = Some (Fin p) ->
  0 <= p <= 1 ->
  nth_error (wc_denominator m pi_vector) j
  = Some (Fin (sqrt (Rhandle_01 p * (1 - Rhandle_01 p) * INR m))).
Proof.
  intros Hm Hj Hp. unfold wc_denominator.
  rewrite !nth_error_map, Hj. cbn [option_map].
  rewrite handle_01_Fin. cbn [fsub fmul]. rewrite fsqrt_Fin; [reflexivity|].
  pose proof (wc_variance_pos m p Hm Hp). lra.
Qed.

(** X22.  In a matrix of finite entries with at least one column, a
    finite entry is mapped to a finite number, neither NaN nor infinite,
    by [newman_transform] and [adamic_adar_transform] for every popularity
    that is a number and every [num_docs], by [shared_size_transform], by
    [shared_weight11_transform] for popularities 0 < p <= 1 and by
    [wc_transform] for popularities 0 <= p <= 1. *)
Theorem column_transforms_finite (adj : matrix) (pi_vector : vector)
    (num_docs : Z) (back_compat make_dense : bool) (i j : nat) (x p : R) :
  (0 < shape1 adj)%nat ->
  nth_error pi_vector j = Some (Fin p) ->
  finite_matrix adj ->
  entry adj i j = Some (Fin x) ->
  (exists y, entry (newman_transform adj pi_vector num_docs make_dense) i j
             = Some (Fin y))
  /\ (exists y,
        entry (adamic_adar_transform adj pi_vector num_docs make_dense) i j
        = Some (Fin y))
  /\ (exists y, entry (shared_size_transform adj back_compat make_dense) i j
                = Some (Fin y))
  /\ (0 < p <= 1 ->
      exists y, entry (shared_weight11_transform adj pi_vector) i j
                = Some (Fin y))
  /\ (0 <= p <= 1 ->
      exists y, entry (wc_transform adj pi_vector) i j = Some (Fin y)).
Proof.
  intros Hm Hp Hfin Hx.
  destruct (affil_counts_divisors num_docs pi_vector j p Hp)
    as (dn & da & Hdn & Hn & Hda & Ha).
  split; [|split; [|split; [|split]]].
  - unfold newman_transform.
    rewrite (entry_scaled_by_divisor _ _ _ i j (Fin x) dn) by assumption.
    rewrite fdiv_Fin by lra. eexists. reflexivity.
  - unfold adamic_adar_transform.
    rewrite (entry_scaled_by_divisor _ _ _ i j (Fin x) da) by assumption.
    rewrite fdiv_Fin by lra. eexists. reflexivity.
  - destruct back_compat.
    + exists x. exact Hx.
    + rewrite (shared_size_divides adj make_dense i j (Fin x) Hfin Hx).
      rewrite fsqrt_INR, fdiv_Fin
        by (pose proof (sqrt_INR_pos _ Hm); lra).
      eexists. reflexivity.
  - intros Hp01. rewrite (shared_weight11_entry _ _ _ _ _ _ Hp Hp01 Hfin Hx).
    eexists. reflexivity.
  - intros Hp01.
    rewrite (wc_entry adj pi_vector i j (Fin x) (Fin p) _ Hp
               (nth_error_wc_denominator_valid _ _ _ _ Hm Hp Hp01) Hx).
    pose proof (sqrt_lt_R0 _ (wc_variance_pos _ p Hm Hp01)).
    cbn [fsub]. rewrite fdiv_Fin by lra. eexists. reflexivity.
Qed.

Lemma column_transforms_finite_witness :
  (exists y,
      entry (shared_weight11_transform example_sparse
               [Fin 1; Fin (1 / 4); Fin (1 / 4); Fin (1 / 4)]) 0 0
      = Some (Fin y))
  /\ (exists y,
         entry (wc_transform example_sparse
                  [Fin 1; Fin (1 / 4); Fin (1 / 4); Fin (1 / 4)]) 0 0
         = Some (Fin y)).
Proof.
  assert (Hfin : finite_matrix example_sparse) by repeat constructor.
  assert (Hm : (0 < shape1 example_sparse)%nat) by (simpl; lia).
  destruct (column_transforms_finite example_sparse
              [Fin 1; Fin (1 / 4); Fin (1 / 4); Fin (1 / 4)] 4 false false
              0 0 (1 + 0) 1 Hm eq_refl Hfin eq_refl)
    as (_ & _ & _ & Hw & Hc).
  split; [apply Hw | apply Hc]; lra.
Defined.

(** X23.  The sparse branch of [cosine_transform] maps a matrix of finite
    entries to a matrix of finite entries: no NaN and no Inf, whatever the
    rows are. *)
Theorem cosine_sparse_output_finite (f : spformat) (m : nat)
    (rows : list sprow) (i j : nat) (x : float) :
  finite_matrix (Sparse f m rows) ->
  entry (cosine_transform (Sparse f m rows) false) i j = Some x ->
  finite x.
Proof.
  intros Hfin Hx.
  assert (Hj : (j < m)%nat).
  { pose proof Hx as Hx'. unfold cosine_transform in Hx'.
    cbn [isspmatrix andb] in Hx'. now apply entry_Sparse_in_range in Hx'. }
  destruct (nth_error rows i) as [r|] eqn:Hr.
  - destruct (cosine_sparse_entries f m rows i r Hfin Hr) as [c Hc].
    destruct (Hc j Hj) as [a [_ Ha]]. rewrite Ha in Hx.
    injection Hx as <-. reflexivity.
  - exfalso. revert Hx. unfold cosine_transform. cbn [isspmatrix andb].
    rewrite entry_Sparse, map_map, nth_error_map2_map, Hr. discriminate.
Qed.

Lemma cosine_sparse_output_finite_witness :
  finite_matrix (Sparse CSR 2 [[]; [(0%nat, f1)]])
  /\ entry (cosine_transform (Sparse CSR 2 [[]; [(0%nat, f1)]]) false) 1 0
     = Some (Fin (1 / 1 * 1 + 0))
  /\ finite (Fin (1 / 1 * 1 + 0)).
Proof.
  assert (Hfin : finite_matrix (Sparse CSR 2 [[]; [(0%nat, f1)]]))
    by repeat constructor.
  assert (He : entry (cosine_transform (Sparse CSR 2 [[]; [(0%nat, f1)]])
                        false) 1 0
               = Some (Fin (1 / 1 * 1 + 0))).
  { unfold cosine_transform, f1, entry.
    cbn [isspmatrix andb map map2 fsum fold_right fmul fadd snd fst toarray
         toarray_row seq nth_error entry_at filter Nat.eqb].
    replace (1 * 1 + 0) with 1 by lra.
    rewrite (fsqrt_Fin 1), sqrt_1, fdiv_Fin by lra. reflexivity. }
  split; [exact Hfin|]. split; [exact He|].
  exact (cosine_sparse_output_finite CSR 2 [[]; [(0%nat, f1)]] 1 0 _ Hfin He).
Defined.

(** ** Columns under the weighted-correlation transform *)

Lemma column_wc_transform (adj : matrix) (pi_vector : vector) (j : nat)
    (p d : R) (cs : list R) :
  d <> 0 ->
  nth_error pi_vector j = Some (Fin p) ->
  nth_error (wc_denominator (shape1 adj) pi_vector) j = Some (Fin d) ->
  column adj j = map Some (Fins cs) ->
  column (wc_transform adj pi_vector) j
  = map Some (Fins (map (fun x => (x - p) / d) cs)).
Proof.
  intros Hd Hp Hden. unfold column, wc_transform. cbn [toarray].
  generalize (toarray adj). intros rows. revert cs.
  induction rows as [|r rows IH]; intros [|c cs] Hcol; try discriminate;
    [reflexivity|].
  cbn [map Fins] in *. injection Hcol as Hc Hcol. f_equal.
  - rewrite !nth_error_map2, Hc, Hp, Hden. cbn [fsub].
    now rewrite fdiv_Fin.
  - now apply IH.
Qed.

Lemma Rsum_binary_squares (p : R) (cs : list R) :
  Forall (fun c => c = 0 \/ c = 1) cs ->
  Rsum (map (fun x => (x - p) * (x - p)) cs)
  = Rsum cs * (1 - 2 * p) + INR (length cs) * (p * p).
Proof.
  induction 1 as [|c cs Hc _ IH].
  - unfold Rsum. simpl. ring.
  - cbn [map length]. rewrite !Rsum_cons, IH, S_INR.
    destruct Hc as [-> | ->]; ring.
Qed.

(** X24.  [wc_transform] standardizes column-wise.  When the popularity
    of column j is the mean of the column, the transformed column sums to
    0; when moreover the column holds 0s and 1s, not all equal, its sum of
    squares is n / m, for n rows and m columns: variance 1, up to the
    division by m that turns the score into a mean. *)
Theorem wc_column_standardized (adj : matrix) (pi_vector : vector) (j : nat)
    (cs : list R) :
  (0 < shape1 adj)%nat ->
  column adj j = map Some (Fins cs) ->
  cs <> [] ->
  nth_error pi_vector j = Some (Fin (Rmean cs)) ->
  0 <= Rmean cs <= 1 ->
  exists zs,
    column (wc_transform adj pi_vector) j = map Some (Fins zs)
    /\ Rsum zs = 0
    /\ (Forall (fun c => c = 0 \/ c = 1) cs ->
        0 < Rmean cs < 1 ->
        Rdot zs zs = INR (length cs) / INR (shape1 adj)).
Proof.
  intros Hm Hcol Hne Hp Hp01.
  pose proof (wc_variance_pos _ _ Hm Hp01) as Hv.
  pose proof (sqrt_lt_R0 _ Hv) as Hd.
  set (d := sqrt (Rhandle_01 (Rmean cs) * (1 - Rhandle_01 (Rmean cs))
                  * INR (shape1 adj))) in *.
  exists (map (fun x => (x - Rmean cs) / d) cs). split; [|split].
  - apply column_wc_transform; try assumption; [lra|].
    now apply nth_error_wc_denominator_valid.
  - rewrite (Rsum_map_div (fun x => x - Rmean cs)), (Rsum_centred cs Hne).
    unfold Rdiv. ring.
  - intros Hbin Hreg.
    rewrite (Rdot_map_quotients (fun x => x - Rmean cs)
               (fun x => x - Rmean cs)) by lra.
    rewrite map2_diag, (Rsum_binary_squares _ cs Hbin).
    assert (Hdd : d * d = Rmean cs * (1 - Rmean cs) * INR (shape1 adj)).
    { unfold d. rewrite sqrt_sqrt by lra.
      now rewrite (Rhandle_01_regular _ Hreg). }
    rewrite Hdd. pose proof (INR_length_pos cs Hne) as Hn.
    pose proof (lt_0_INR _ Hm) as Hm'.
    assert (Hs : Rsum cs = INR (length cs) * Rmean cs)
      by (unfold Rmean; field; lra).
    rewrite Hs. field. lra.
Qed.

Lemma Rmean_1_0 : Rmean [1; 0] = 1 / 2.
Proof. unfold Rmean, Rsum. simpl. lra. Qed.

Lemma wc_column_standardized_witness :
  exists zs,
    column (wc_transform (Dense 1 [[Fin 1]; [Fin 0]]) [Fin (Rmean [1; 0])]) 0
    = map Some (Fins zs)
    /\ Rsum zs = 0
    /\ Rdot zs zs = INR (length [1; 0]) / INR 1.
Proof.
  destruct (wc_column_standardized (Dense 1 [[Fin 1]; [Fin 0]])
              [Fin (Rmean [1; 0])] 0 [1; 0])
    as (zs & Hcol & Hsum & Hsq).
  - simpl. lia.
  - reflexivity.
  - discriminate.
  - reflexivity.
  - rewrite Rmean_1_0. lra.
  - exists zs. split; [exact Hcol|]. split; [exact Hsum|].
    apply Hsq.
    + constructor; [now right|]. constructor; [now left | constructor].
    + rewrite Rmean_1_0. lra.
Defined.

(** ** Cosine on sparse matrices in canonical format *)




Lemma entry_at_real (j : nat) (r : sprow) :
  Forall (fun e => finite (snd e)) r ->
  entry_at j r = Fin (real_of (entry_at j r)).
Proof.
  intros Hfin.
  destruct (entry_at_scaled (fun _ => Fin 1) j 1 r eq_refl Hfin)
    as [a [-> _]]. reflexivity.
Qed.






